(** * social-auto-poster: the job queue and the cron scheduler

    A shallow embedding of [src/scheduler/queue-manager.ts] and
    [src/scheduler/cron-jobs.ts], with the properties of the job queue,
    the executor, the retry and retention policies and the scheduler.

    Conventions of the embedding.
    - Instants ([createdAt], [nextRetry], [Date.now()]) are milliseconds
      since the epoch, as [Z]: [new Date(s).getTime()] of a string made by
      [toISOString] is that number, and the code only ever compares dates
      or subtracts them.
    - [attempts] and [maxAttempts] are integers, as [Z].
    - The clock and [generateId] are inputs of the operations that read
      them; a synchronous stretch of code reads the clock once.  The
      clock reads an instant of the present era, from 1970 to past the
      year 14000; there a retry instant can be printed by [toISOString]
      exactly when fewer than 38 attempts were made.
    - A job object is shared between the queue array and the executor that
      awaits its handler.  Objects are told apart by their [id]
      ([generateId] makes a new one per job). *)

From stdpp Require Import base list strings gmap pretty.
From Stdlib Require Import ZArith Lia.

Local Open Scope string_scope.
Local Open Scope list_scope.
Local Open Scope Z_scope.

(** ** Data model *)

Inductive Priority := high | medium | low.

Inductive Status := pending | processing | completed | failed.

(** The payload, [data: any], is never read by the queue; the scheduler
    passes the empty object or a manual flag. *)
Inductive Payload :=
| EmptyPayload
| ManualPayload
| OpaquePayload (text : string).

Record QueueJob := mkJob {
  id : string;
  type : string;
  priority : Priority;
  data : Payload;
  createdAt : Z;
  attempts : Z;
  maxAttempts : Z;
  nextRetry : option Z;
  status : Status;
  error : option string
}.

(** The second argument of [addJob]; its [type] field is not read. *)
Record JobData := mkJobData {
  jd_type : string;
  jd_priority : Priority;
  jd_data : Payload;
  jd_maxAttempts : option Z
}.

(** [ApiResponse<T>] as [createApiResponse] builds it. *)
Record ApiResponse (T : Type) := mkResponse {
  successful : bool;
  message : string;
  resp_data : option T;
  resp_error : option string
}.
Arguments mkResponse {T}.
Arguments successful {T}.
Arguments message {T}.
Arguments resp_data {T}.
Arguments resp_error {T}.

Definition createApiResponse {T} (ok : bool) (msg : string) (d : option T)
    (err : option string) : ApiResponse T :=
  mkResponse ok msg d err.

#[global] Instance Priority_eq_dec : EqDecision Priority.
Proof. solve_decision. Defined.
#[global] Instance Status_eq_dec : EqDecision Status.
Proof. solve_decision. Defined.
#[global] Instance Payload_eq_dec : EqDecision Payload.
Proof. solve_decision. Defined.
#[global] Instance QueueJob_eq_dec : EqDecision QueueJob.
Proof. solve_decision. Defined.

Definition status_eqb (a b : Status) : bool := bool_decide (a = b).
Definition priority_eqb (a b : Priority) : bool := bool_decide (a = b).

(** Field updates of a job object. *)
Definition set_status (s : Status) (j : QueueJob) : QueueJob :=
  mkJob (id j) (type j) (priority j) (data j) (createdAt j) (attempts j)
        (maxAttempts j) (nextRetry j) s (error j).
Definition set_attempts (n : Z) (j : QueueJob) : QueueJob :=
  mkJob (id j) (type j) (priority j) (data j) (createdAt j) n
        (maxAttempts j) (nextRetry j) (status j) (error j).
Definition set_nextRetry (t : option Z) (j : QueueJob) : QueueJob :=
  mkJob (id j) (type j) (priority j) (data j) (createdAt j) (attempts j)
        (maxAttempts j) t (status j) (error j).
Definition set_error (e : option string) (j : QueueJob) : QueueJob :=
  mkJob (id j) (type j) (priority j) (data j) (createdAt j) (attempts j)
        (maxAttempts j) (nextRetry j) (status j) e.

(** ** The queue manager *)

Module Queue.

(** [QueueManagerService]: the array, the running flag and the interval
    handle.  [immediates] counts the [setImmediate] callbacks that
    [addJob] has queued and that have not run yet; [inflight] holds the
    job objects whose handler a [processQueue] call is awaiting. *)
Record State := mkState {
  queue : list QueueJob;
  isProcessing : bool;
  processingInterval : bool;
  immediates : nat;
  inflight : list QueueJob
}.

Definition initial : State := mkState [] false false 0%nat [].

Definition with_queue (q : list QueueJob) (st : State) : State :=
  mkState q (isProcessing st) (processingInterval st) (immediates st)
          (inflight st).

(** [priorityOrder = { high: 3, medium: 2, low: 1 }] *)
Definition priorityOrder (p : Priority) : Z :=
  match p with high => 3 | medium => 2 | low => 1 end.

(** The loop of [findInsertPosition], from index [i] on. *)
Fixpoint findInsertPositionFrom (jobPriority : Z) (q : list QueueJob)
    (i : nat) : nat :=
  match q with
  | [] => i
  | j :: rest =>
      if priorityOrder (priority j) <? jobPriority then i
      else findInsertPositionFrom jobPriority rest (S i)
  end.

Definition findInsertPosition (q : list QueueJob) (p : Priority) : nat :=
  findInsertPositionFrom (priorityOrder p) q 0.

(** [queue.splice(i, 0, job)] *)
Definition splice (i : nat) (job : QueueJob) (q : list QueueJob)
    : list QueueJob :=
  take i q ++ job :: drop i q.

(** [jobData.maxAttempts || 3]: absent and [0] are falsy. *)
Definition maxAttemptsOrDefault (m : option Z) : Z :=
  match m with
  | None => 3
  | Some n => if n =? 0 then 3 else n
  end.

Definition newJob (newId : string) (now : Z) (ty : string) (jd : JobData)
    : QueueJob :=
  mkJob newId ty (jd_priority jd) (jd_data jd) now 0
        (maxAttemptsOrDefault (jd_maxAttempts jd)) None pending None.

(** [addJob(type, jobData)].  Nothing in the [try] block throws, so the
    [catch] branch is not reached. *)
Definition addJob (newId : string) (now : Z) (ty : string) (jd : JobData)
    (st : State) : State * ApiResponse string :=
  let job := newJob newId now ty jd in
  let insertIndex := findInsertPosition (queue st) (priority job) in
  let q' := splice insertIndex job (queue st) in
  let wake := priority_eqb (priority job) high && isProcessing st in
  (mkState q' (isProcessing st) (processingInterval st)
           (if wake then S (immediates st) else immediates st)
           (inflight st),
   createApiResponse true "Job added to queue" (Some (id job)) None).

(** [getQueueStatus()] *)
Record QueueStatus := mkQueueStatus {
  totalJobs : nat;
  pendingJobs : nat;
  processingJobs : nat;
  completedJobs : nat;
  failedJobs : nat;
  qs_isProcessing : bool
}.

Definition countStatus (s : Status) (q : list QueueJob) : nat :=
  length (List.filter (fun j => status_eqb (status j) s) q).

Definition getQueueStatus (st : State) : QueueStatus :=
  mkQueueStatus (length (queue st))
                (countStatus pending (queue st))
                (countStatus processing (queue st))
                (countStatus completed (queue st))
                (countStatus failed (queue st))
                (isProcessing st).

(** [getJob(jobId)] *)
Definition getJob (jobId : string) (q : list QueueJob) : option QueueJob :=
  List.find (fun j => String.eqb (id j) jobId) q.

(** *** The executor *)

(** The test of the [find] in [processQueue]:
    [status === 'pending' && (!nextRetry || new Date(nextRetry) <= new Date())]. *)
Definition eligible (now : Z) (j : QueueJob) : bool :=
  status_eqb (status j) pending &&
  match nextRetry j with
  | None => true
  | Some t => t <=? now
  end.

(** The job [processQueue] picks, after its guard
    [!this.isProcessing || this.queue.length === 0]. *)
Definition selectNext (now : Z) (st : State) : option QueueJob :=
  if negb (isProcessing st) || Nat.eqb (length (queue st)) 0 then None
  else List.find (eligible now) (queue st).

(** [nextJob.status = 'processing'; nextJob.attempts++] *)
Definition startJob (j : QueueJob) : QueueJob :=
  set_attempts (attempts j + 1) (set_status processing j).

(** The queue once the object found by [find] has been started: the
    first eligible job is the one mutated, in place. *)
Fixpoint markNext (now : Z) (q : list QueueJob) : list QueueJob :=
  match q with
  | [] => []
  | j :: rest =>
      if eligible now j then startJob j :: rest
      else j :: markNext now rest
  end.

(** [processQueue] up to its [await this.executeJob(nextJob)]. *)
Definition wake (now : Z) (st : State) : State :=
  match selectNext now st with
  | None => st
  | Some j =>
      mkState (markNext now (queue st)) (isProcessing st)
              (processingInterval st) (immediates st)
              (startJob j :: inflight st)
  end.

(** What a collaborator of the host application ([app.processCommitsAndPost],
    [memoryStore.createBackup]) does when awaited. *)
Inductive Collab :=
| Returned (r : ApiResponse unit)
| Thrown (msg : string).

Definition sevenDays : Z := 7 * 24 * 60 * 60 * 1000.
Definition oneDay : Z := 24 * 60 * 60 * 1000.

Definition finished (j : QueueJob) : bool :=
  status_eqb (status j) completed || status_eqb (status j) failed.

(** The [oldJobs] of [executeCleanupJob]. *)
Definition isOldJob (now : Z) (j : QueueJob) : bool :=
  finished j && (createdAt j <? now - sevenDays).

Definition executeMainPostingJob (c : Collab) : ApiResponse unit :=
  match c with
  | Returned r => r
  | Thrown msg => createApiResponse false "Main posting job failed" None (Some msg)
  end.

(** The three probes are caught one by one; the job itself succeeds. *)
Definition executeHealthCheckJob : ApiResponse unit :=
  createApiResponse true "Health check completed" (Some tt) None.

Definition executeCleanupJob (now : Z) (q : list QueueJob)
    : ApiResponse unit * list QueueJob :=
  (createApiResponse true "Cleanup completed" (Some tt) None,
   List.filter (fun j => negb (isOldJob now j)) q).

Definition executeBackupJob (c : Collab) : ApiResponse unit :=
  match c with
  | Returned r => r
  | Thrown msg => createApiResponse false "Backup job failed" None (Some msg)
  end.

(** The [case] labels of [executeJob]. *)
Definition registered (ty : string) : bool :=
  String.eqb ty "main-posting" || String.eqb ty "health-check" ||
  String.eqb ty "cleanup" || String.eqb ty "backup".

(** [executeJob(job)]: the response, and the queue array afterwards (only
    the cleanup handler replaces it). *)
Definition executeJob (now : Z) (c : Collab) (job : QueueJob)
    (q : list QueueJob) : ApiResponse unit * list QueueJob :=
  if String.eqb (type job) "main-posting" then (executeMainPostingJob c, q)
  else if String.eqb (type job) "health-check" then (executeHealthCheckJob, q)
  else if String.eqb (type job) "cleanup" then executeCleanupJob now q
  else if String.eqb (type job) "backup" then (executeBackupJob c, q)
  else (createApiResponse false (String.append "Unknown job type: " (type job)) None
                          (Some "Job type not supported"), q).

(** [Math.pow(2, job.attempts) * 60 * 1000] *)
Definition retryDelay (n : Z) : Z := 2 ^ n * 60 * 1000.

(** The greatest instant a [Date] holds; [toISOString] of a date beyond
    it throws a [RangeError]. *)
Definition maxInstant : Z := 8640000000000000.

(** Where the present era ends. *)
Definition eraEnd : Z := 390000000000000.

(** Whether [new Date(Date.now() + retryDelay n).toISOString()] returns,
    for a clock of the present era. *)
Definition printableRetry (n : Z) : bool := n <=? 37.

(** Whether [handleJobFailure] throws: on its retry branch, once the
    status is set and before [nextRetry] is written. *)
Definition failureThrows (job : QueueJob) : bool :=
  negb (attempts job >=? maxAttempts job) && negb (printableRetry (attempts job)).

(** [handleJobFailure(job, error)]: the job as the call leaves it,
    whether it returns or throws. *)
Definition handleJobFailure (now : Z) (err : string) (job : QueueJob)
    : QueueJob :=
  let job := set_error (Some err) job in
  if attempts job >=? maxAttempts job then set_status failed job
  else if printableRetry (attempts job)
  then set_nextRetry (Some (now + retryDelay (attempts job)))
                     (set_status pending job)
  else set_status pending job.

(** [result.error || 'Unknown error'] *)
Definition errorOrUnknown (e : option string) : string :=
  match e with
  | None => "Unknown error"
  | Some s => if String.eqb s "" then "Unknown error" else s
  end.

(** The failure path of [processQueue]: [handleJobFailure] inside the
    [try]; when that throws, the [catch] calls it again with the
    message of the [RangeError], and it throws again. *)
Definition recordFailure (now : Z) (err : string) (job : QueueJob) : QueueJob :=
  if failureThrows job
  then handleJobFailure now "Invalid time value" (handleJobFailure now err job)
  else handleJobFailure now err job.

(** The job object after the handler's response has been applied. *)
Definition settle (now : Z) (res : ApiResponse unit) (job : QueueJob)
    : QueueJob :=
  if successful res then set_status completed job
  else recordFailure now (errorOrUnknown (resp_error res)) job.

(** Whether the call of [processQueue] ends in that second throw, and
    so before its retention pass. *)
Definition rejects (res : ApiResponse unit) (job : QueueJob) : bool :=
  negb (successful res) && failureThrows job.

(** The array sees the mutated object wherever it still holds it. *)
Definition writeBack (job' : QueueJob) (q : list QueueJob) : list QueueJob :=
  map (fun j => if String.eqb (id j) (id job') then job' else j) q.

(** *** Retention *)

Definition maxJobs : nat := 100.

(** The filter of [cleanupOldJobs]. *)
Definition keepJob (now : Z) (j : QueueJob) : bool :=
  status_eqb (status j) pending || status_eqb (status j) processing ||
  status_eqb (status j) failed ||
  (status_eqb (status j) completed && (now - oneDay <? createdAt j)).

(** [sort((a, b) => time(b.createdAt) - time(a.createdAt))]: newest first;
    [Array.prototype.sort] is stable, so jobs of one instant keep their
    order. *)
Fixpoint insertByRecency (x : QueueJob) (l : list QueueJob) : list QueueJob :=
  match l with
  | [] => [x]
  | y :: rest =>
      if createdAt x <? createdAt y then y :: insertByRecency x rest
      else x :: y :: rest
  end.

Definition sortByRecency (l : list QueueJob) : list QueueJob :=
  fold_right insertByRecency [] l.

(** [cleanupOldJobs()] *)
Definition cleanupOldJobs (now : Z) (q : list QueueJob) : list QueueJob :=
  if Nat.leb (length q) maxJobs then q
  else
    let jobsToKeep := List.filter (keepJob now) q in
    if Nat.ltb maxJobs (length jobsToKeep)
    then take maxJobs (sortByRecency jobsToKeep)
    else jobsToKeep.

(** The end of [processQueue]: the retention pass, unless the call has
    been left by a throw. *)
Definition retain (now : Z) (res : ApiResponse unit) (job : QueueJob)
    (q : list QueueJob) : list QueueJob :=
  if rejects res job then q else cleanupOldJobs now q.

(** [processQueue] after its [await]: the handler's effect, the outcome
    written into the job object, then the retention pass.  [job] is the
    object the call holds.  The cleanup handler has no [await] of its own
    and so runs right after the selection; the queue it filters is then
    the one the selection left. *)
Definition resume (now : Z) (c : Collab) (job : QueueJob) (st : State)
    : State :=
  let '(res, q1) := executeJob now c job (queue st) in
  let q2 := writeBack (settle now res job) q1 in
  with_queue (retain now res job q2) st.

(** [j => j.id !== jobId] *)
Definition otherThan (jobId : string) (j : QueueJob) : bool :=
  negb (String.eqb (id j) jobId).

Definition dropInflight (jobId : string) (st : State) : State :=
  mkState (queue st) (isProcessing st) (processingInterval st)
          (immediates st) (List.filter (otherThan jobId) (inflight st)).

(** One whole call of [processQueue] whose handler answers before
    anything else happens. *)
Definition processQueue (now : Z) (c : Collab) (st : State) : State :=
  match selectNext now st with
  | None => st
  | Some j => dropInflight (id j) (resume now c (startJob j) (wake now st))
  end.

(** What one such call does to the job it selects when the handler's
    response is a failure carrying [err]: the attempt is counted, then
    the failure path decides. *)
Definition failedAttempt (now : Z) (err : string) (j : QueueJob) : QueueJob :=
  recordFailure now err (startJob j).


(** [start()] up to the first [await] inside [processQueue]; the answer
    is the one it gives when that first call of [processQueue] ends
    without a throw. *)
Definition start (now : Z) (st : State) : State * ApiResponse bool :=
  if isProcessing st
  then (st, createApiResponse true "Queue manager already running" (Some true) None)
  else
    (wake now (mkState (queue st) true true (immediates st) (inflight st)),
     createApiResponse true "Queue manager started" (Some true) None).

(** [stop()] *)
Definition stop (st : State) : State * ApiResponse bool :=
  (mkState (queue st) false false (immediates st) (inflight st),
   createApiResponse true "Queue manager stopped" (Some true) None).

(** [getRecentJobs(limit)] *)
Definition getRecentJobs (limit : nat) (q : list QueueJob) : list QueueJob :=
  take limit (sortByRecency q).

(** [cancelJob(jobId)] *)
Definition cancelJob (jobId : string) (st : State) : State * ApiResponse bool :=
  match getJob jobId (queue st) with
  | None =>
      (st, createApiResponse false "Job not found" (Some false)
                             (Some "Job ID does not exist"))
  | Some job =>
      if status_eqb (status job) processing then
        (st, createApiResponse false "Cannot cancel processing job" (Some false)
                               (Some "Job is currently being processed"))
      else if finished job then
        (st, createApiResponse false "Job already finished" (Some false)
                               (Some "Job has already completed or failed"))
      else
        (with_queue (List.filter (otherThan jobId) (queue st)) st,
         createApiResponse true "Job cancelled successfully" (Some true) None)
  end.

(** *** Interleavings

    The event loop runs one synchronous stretch at a time.  An event is
    one such stretch: a public call, the interval callback, a queued
    [setImmediate] callback, or the rest of a [processQueue] call once
    its handler has answered. *)
Inductive Event :=
| EStart (now : Z)
| EStop
| EAdd (newId : string) (now : Z) (ty : string) (jd : JobData)
| ECancel (jobId : string)
| ETick (now : Z)
| EImmediate (now : Z)
| EFinish (jobId : string) (now : Z) (c : Collab).

Definition takeImmediate (st : State) : State :=
  mkState (queue st) (isProcessing st) (processingInterval st)
          (pred (immediates st)) (inflight st).

(** [None]: the event cannot happen in this state. *)
Definition step (e : Event) (st : State) : option State :=
  match e with
  | EStart now => Some (fst (start now st))
  | EStop => Some (fst (stop st))
  | EAdd newId now ty jd => Some (fst (addJob newId now ty jd st))
  | ECancel jobId => Some (fst (cancelJob jobId st))
  | ETick now =>
      if processingInterval st then Some (wake now st) else None
  | EImmediate now =>
      match immediates st with
      | O => None
      | S _ => Some (wake now (takeImmediate st))
      end
  | EFinish jobId now c =>
      match List.find (fun j => String.eqb (id j) jobId) (inflight st) with
      | None => None
      | Some job => Some (dropInflight jobId (resume now c job st))
      end
  end.

Fixpoint run (es : list Event) (st : State) : option State :=
  match es with
  | [] => Some st
  | e :: rest =>
      match step e st with
      | None => None
      | Some st' => run rest st'
      end
  end.




(** *** Invariants *)

(** No job of the queue is processing. *)
Definition quiet (q : list QueueJob) : Prop :=
  Forall (fun j => status j <> processing) q.

(** Every processing job of the queue is the object [k]. *)
Definition owned (k : QueueJob) (q : list QueueJob) : Prop :=
  Forall (fun j => status j = processing -> id j = id k) q.


(** The queue is in priority order: no job stands before one of greater
    weight. *)
Fixpoint byPriority (q : list QueueJob) : Prop :=
  match q with
  | [] => True
  | j :: rest =>
      Forall (fun k => priorityOrder (priority k) <= priorityOrder (priority j)) rest /\
      byPriority rest
  end.

(** A list of jobs runs from the newest to the oldest. *)
Fixpoint newestFirst (l : list QueueJob) : Prop :=
  match l with
  | [] => True
  | x :: rest =>
      Forall (fun y => createdAt y <= createdAt x) rest /\ newestFirst rest
  end.

(** The attempts made on a job stay within what it is allowed: a job
    still waiting has attempts to spare, a failed one has used them up. *)
Definition withinAllowance (j : QueueJob) : Prop :=
  0 <= attempts j <= Z.max 1 (maxAttempts j) /\
  (status j = pending -> attempts j = 0 \/ attempts j < maxAttempts j) /\
  (status j = failed -> maxAttempts j <= attempts j).

Definition allWithinAllowance (st : State) : Prop :=
  Forall withinAllowance (queue st) /\ Forall withinAllowance (inflight st).

(** Two arrays hold jobs of the same priorities, place by place. *)
Definition samePriorities (q q' : list QueueJob) : Prop :=
  Forall2 (fun a b => priority a = priority b) q q'.

End Queue.

(** ** The cron scheduler *)

Module Cron.

(** A task object of [node-cron]: its expression, the schedule whose
    callback it runs, and whether it is started. *)
Record ScheduledTask := mkTask {
  expression : string;
  target : string;
  running : bool
}.

(** [JobInfo]; [task] refers to a task object by its place in the table
    of the tasks created so far. *)
Record JobInfo := mkJobInfo {
  name : string;
  schedule : string;
  task : option nat;
  lastRun : option Z
}.

(** [CronJobsService], with the task objects it has created and the
    number of [RUN_NOW] timeouts it has set. *)
Record State := mkState {
  jobs : gmap string JobInfo;
  isRunning : bool;
  tasks : list ScheduledTask;
  runNowTimeouts : nat
}.

Definition initial : State := mkState ∅ false [] 0%nat.

Definition stopTask (t : ScheduledTask) : ScheduledTask :=
  mkTask (expression t) (target t) false.

Section WithEnvironment.

(** [cron.validate] of node-cron, [process.env.RUN_NOW === 'true'] and
    [config.app.cronSchedule]. *)
Variable validate : string -> bool.
Variable runNow : bool.
Variable cronSchedule : string.

(** [initializeJobs()] *)
Definition initializeJobs (st : State) : State :=
  let define (n s : string) (m : gmap string JobInfo) :=
    <[n := mkJobInfo n s None None]> m in
  mkState
    (define "cleanup" "0 3 * * 0"
      (define "health-check" "0 */6 * * *"
        (define "backup" "0 2 * * *"
          (define "main-posting" cronSchedule (jobs st)))))
    (isRunning st) (tasks st) (runNowTimeouts st).

(** [cron.schedule(expr, callback, { scheduled: false })], the handle
    stored in the job's [task], then [task.start()]. *)
Definition armTask (n : string) (info : JobInfo) (st : State) : State :=
  let t := length (tasks st) in
  mkState (<[n := mkJobInfo (name info) (schedule info) (Some t) (lastRun info)]>
             (jobs st))
          (isRunning st)
          (tasks st ++ [mkTask (schedule info) n true])
          (runNowTimeouts st).

(** [scheduleMainJob()] *)
Definition scheduleMainJob (st : State) : State :=
  match jobs st !! "main-posting" with
  | None => st
  | Some jobInfo =>
      let st1 :=
        if runNow
        then mkState (jobs st) (isRunning st) (tasks st) (S (runNowTimeouts st))
        else st in
      if negb (validate (schedule jobInfo)) then st1
      else armTask "main-posting" jobInfo st1
  end.

(** [scheduleBackupJob], [scheduleHealthCheckJob], [scheduleCleanupJob]:
    their expressions are the literals of [initializeJobs]. *)
Definition scheduleFixedJob (n : string) (st : State) : State :=
  match jobs st !! n with
  | None => st
  | Some jobInfo => armTask n jobInfo st
  end.

(** [startAllJobs()] *)
Definition startAllJobs (st : State) : State :=
  scheduleFixedJob "cleanup"
    (scheduleFixedJob "health-check"
      (scheduleFixedJob "backup" (scheduleMainJob st))).

(** [start()] *)
Definition start (st : State) : State * ApiResponse bool :=
  if isRunning st
  then (st, createApiResponse true "Cron jobs already running" (Some true) None)
  else
    let st' := startAllJobs (initializeJobs st) in
    (mkState (jobs st') true (tasks st') (runNowTimeouts st'),
     createApiResponse true "Cron jobs started successfully" (Some true) None).

(** [task.stop(); jobInfo.task = null] for one job. *)
Definition releaseTask (info : JobInfo) (ts : list ScheduledTask)
    : JobInfo * list ScheduledTask :=
  match task info with
  | None => (info, ts)
  | Some t =>
      (mkJobInfo (name info) (schedule info) None (lastRun info),
       alter stopTask t ts)
  end.

(** [stop()]: every task handle held by a job is stopped and dropped. *)
Definition stop (st : State) : State * ApiResponse bool :=
  let held := omap task (map snd (map_to_list (jobs st))) in
  (mkState ((fun info => fst (releaseTask info [])) <$> jobs st) false
           (foldr (fun t ts => alter stopTask t ts) (tasks st) held)
           (runNowTimeouts st),
   createApiResponse true "Cron jobs stopped successfully" (Some true) None).

(** [updateMainSchedule(newSchedule)] *)
Definition updateMainSchedule (newSchedule : string) (st : State)
    : State * ApiResponse bool :=
  if negb (validate newSchedule) then
    (st, createApiResponse false "Invalid cron schedule" (Some false)
                           (Some "Schedule format is invalid"))
  else
    match jobs st !! "main-posting" with
    | None =>
        (st, createApiResponse false "Main job not found" (Some false)
                               (Some "Job not initialized"))
    | Some jobInfo =>
        let '(released, ts) := releaseTask jobInfo (tasks st) in
        let updated :=
          mkJobInfo (name released) newSchedule (task released)
                    (lastRun released) in
        let st1 :=
          mkState (<["main-posting" := updated]> (jobs st)) (isRunning st) ts
                  (runNowTimeouts st) in
        (scheduleMainJob st1,
         createApiResponse true "Schedule updated successfully" (Some true) None)
    end.

End WithEnvironment.

(** The argument of [addJob] in [triggerMainJob]. *)
Definition manualJobData : JobData :=
  mkJobData "main-posting" high ManualPayload None.

(** [triggerMainJob()]: [queueManager.addJob('main-posting-manual', ...)];
    the scheduler's own state is not touched. *)
Definition triggerMainJob (newId : string) (now : Z) (cs : State)
    (qs : Queue.State) : State * Queue.State * ApiResponse bool :=
  let '(qs', _) := Queue.addJob newId now "main-posting-manual" manualJobData qs in
  (cs, qs', createApiResponse true "Main job triggered manually" (Some true) None).

(** [jobInfo.lastRun = new Date().toISOString()] in a callback.  The
    callback of task [t] holds the [JobInfo] object it was scheduled
    with; the map still holds that object exactly when the entry's
    handle is [t], and a write to an object the map has dropped is not
    seen. *)
Definition touch (n : string) (t : nat) (now : Z) (cs : State) : State :=
  match jobs cs !! n with
  | None => cs
  | Some info =>
      if bool_decide (task info = Some t)
      then mkState (<[n := mkJobInfo (name info) (schedule info) (task info)
                                     (Some now)]> (jobs cs))
                   (isRunning cs) (tasks cs) (runNowTimeouts cs)
      else cs
  end.

(** The arguments of [addJob] in the callbacks. *)
Definition scheduledJobData (n : string) (p : Priority) : JobData :=
  mkJobData n p EmptyPayload None.

(** The callbacks given to [cron.schedule], by the schedule they belong
    to; the backup callback calls [memoryStore.createBackup] and
    enqueues nothing. *)
Definition callback (n : string) (t : nat) (newId : string) (now : Z)
    (cs : State) (qs : Queue.State) : State * Queue.State :=
  if String.eqb n "main-posting" then
    (touch n t now cs,
     fst (Queue.addJob newId now "main-posting" (scheduledJobData "main-posting" high) qs))
  else if String.eqb n "backup" then (touch n t now cs, qs)
  else if String.eqb n "health-check" then
    (touch n t now cs,
     fst (Queue.addJob newId now "health-check" (scheduledJobData "health-check" low) qs))
  else if String.eqb n "cleanup" then
    (touch n t now cs,
     fst (Queue.addJob newId now "cleanup" (scheduledJobData "cleanup" low) qs))
  else (cs, qs).

(** The timer of task [t] fires: only a started task has one. *)
Definition fire (t : nat) (newId : string) (now : Z) (cs : State)
    (qs : Queue.State) : option (State * Queue.State) :=
  match tasks cs !! t with
  | Some x =>
      if running x then Some (callback (target x) t newId now cs qs) else None
  | None => None
  end.

(** The [setTimeout] callback of the [RUN_NOW] flag. *)
Definition runNowJobData : JobData :=
  mkJobData "main-posting" high ManualPayload None.

Definition runNowCallback (newId : string) (now : Z) (cs : State)
    (qs : Queue.State) : option (State * Queue.State) :=
  match runNowTimeouts cs with
  | O => None
  | S k =>
      Some (mkState (jobs cs) (isRunning cs) (tasks cs) k,
            fst (Queue.addJob newId now "main-posting" runNowJobData qs))
  end.

(** *** Runs of the scheduler *)

Inductive Event :=
| CStart
| CStop
| CUpdate (newSchedule : string)
| CTrigger (newId : string) (now : Z)
| CFire (t : nat) (newId : string) (now : Z)
| CRunNow (newId : string) (now : Z).

Section Runs.

Variable validate : string -> bool.
Variable runNow : bool.
Variable cronSchedule : string.

Definition step (e : Event) (s : State * Queue.State)
    : option (State * Queue.State) :=
  let '(cs, qs) := s in
  match e with
  | CStart => Some (fst (start validate runNow cronSchedule cs), qs)
  | CStop => Some (fst (stop cs), qs)
  | CUpdate newSchedule =>
      Some (fst (updateMainSchedule validate runNow newSchedule cs), qs)
  | CTrigger newId now => Some (fst (triggerMainJob newId now cs qs))
  | CFire t newId now => fire t newId now cs qs
  | CRunNow newId now => runNowCallback newId now cs qs
  end.

Fixpoint run (es : list Event) (s : State * Queue.State)
    : option (State * Queue.State) :=
  match es with
  | [] => Some s
  | e :: rest =>
      match step e s with
      | None => None
      | Some s' => run rest s'
      end
  end.

(** The runs in which the schedule is updated only while the scheduler
    is running. *)
Fixpoint updatesWhileRunning (es : list Event) (s : State * Queue.State) : bool :=
  match es with
  | [] => true
  | e :: rest =>
      match e with
      | CUpdate _ => isRunning (fst s)
      | _ => true
      end &&
      match step e s with
      | Some s' => updatesWhileRunning rest s'
      | None => true
      end
  end.

End Runs.

(** *** Invariants *)

(** Every started task is the one its schedule holds. *)
Definition held (cs : State) : Prop :=
  forall t x, tasks cs !! t = Some x -> running x = true ->
    exists info, jobs cs !! target x = Some info /\ task info = Some t.

Definition allStopped (cs : State) : Prop :=
  Forall (fun x => running x = false) (tasks cs).

(** No started task belongs to schedule [n]. *)
Definition noTimer (n : string) (cs : State) : Prop :=
  forall t x, tasks cs !! t = Some x -> running x = true -> target x <> n.

Definition tidy (cs : State) : Prop :=
  held cs /\ (isRunning cs = false -> allStopped cs).

(** Schedule [n] has the expression [e], has not fired, and holds a
    started task of that expression. *)
Definition armed (n e : string) (cs : State) : Prop :=
  exists t, jobs cs !! n = Some (mkJobInfo n e (Some t) None) /\
            tasks cs !! t = Some (mkTask e n true).

(** Schedule [n] has the expression [e], has not fired, and holds no
    task. *)
Definition unarmed (n e : string) (cs : State) : Prop :=
  jobs cs !! n = Some (mkJobInfo n e None None).

End Cron.

(** ** Concrete runs *)

Module Scenario.
Import Queue.

Definition done : ApiResponse unit := createApiResponse true "done" (Some tt) None.

Definition jobId (n : nat) : string := String.append "job-" (pretty n).

Definition posting : JobData := mkJobData "main-posting" high EmptyPayload None.
Definition backup : JobData := mkJobData "backup" low EmptyPayload None.

(** The [n]-th call of [addJob], made at instant [n]. *)
Definition enqueue (ty : string) (jd : JobData) (n : nat) : Event :=
  EAdd (jobId n) (Z.of_nat n) ty jd.

(** Three posting jobs, then ninety-nine backups, all enqueued before the
    executor is started; the executor then runs the first posting job to
    completion. *)
Definition burst : list Event :=
  map (enqueue "main-posting" posting) (seq 1 3) ++
  map (enqueue "backup" backup) (seq 4 99).

Definition burstThenOneCycle : list Event :=
  burst ++ [EStart 103; EFinish (jobId 1) 104 (Returned done)].

(** The same run up to the moment the first handler is awaited. *)
Definition burstThenStart : list Event := burst ++ [EStart 103].

(** The state then, and the job object the first call holds. *)
Definition started : State :=
  match run burstThenStart initial with
  | Some st => st
  | None => initial
  end.

Definition firstRunning : QueueJob :=
  startJob (newJob (jobId 1) 1 "main-posting" posting).

(** A job at its 38th attempt, with 50 allowed, in the hands of a call of
    [processQueue], and a queue of that job and a hundred backups. *)
Definition flaky : QueueJob :=
  mkJob "job-0" "main-posting" high EmptyPayload 0 38 50 (Some 5) processing
        (Some "boom").

Definition crowded : State :=
  mkState (flaky :: map (fun n => newJob (jobId n) (Z.of_nat n) "backup" backup)
                        (seq 1 100))
          true true 0%nat [flaky].

(** The array as the retention pass of that first cycle finds it. *)
Definition beforePass : list QueueJob :=
  match run burstThenStart initial with
  | Some st =>
      writeBack (set_status completed
                   (startJob (newJob (jobId 1) 1 "main-posting" posting)))
                (queue st)
  | None => []
  end.


(** The same two jobs, the second wake running only once the first
    handler has answered. *)
Definition inTurn : list Event :=
  [EStart 0; enqueue "main-posting" posting 1; enqueue "main-posting" posting 2;
   EImmediate 3; EFinish (jobId 1) 4 (Returned done); EImmediate 5].

Definition inTurnEnd : State :=
  match run inTurn initial with
  | Some st => st
  | None => initial
  end.

(** A running executor with an empty queue. *)
Definition idle : State := mkState [] true true 0%nat [].

(** A pending job that has never run, with three attempts allowed. *)
Definition fresh : QueueJob := newJob "job-1" 0 "main-posting" posting.

(** One posting job on a running executor whose handler throws at each
    of three attempts, made at 1 s, 200 s and 500 s. *)
Definition oneJob : State := fst (addJob "job-1" 0 "main-posting" posting idle).
Definition afterFailure1 : State := processQueue 1000 (Thrown "boom") oneJob.
Definition afterFailure2 : State := processQueue 200000 (Thrown "boom") afterFailure1.
Definition afterFailure3 : State := processQueue 500000 (Thrown "boom") afterFailure2.

(** A job of a type [executeJob] has no case for, with the default
    number of attempts, after one cycle at 1 s. *)
Definition unknownData : JobData := mkJobData "unknown-type" medium EmptyPayload None.
Definition afterUnknown : State :=
  processQueue 1000 (Returned done)
               (fst (addJob "job-1" 0 "unknown-type" unknownData idle)).

(** That job at the head of a running queue, a backup behind it. *)
Definition twoJobs : State :=
  fst (addJob "job-2" 1 "backup" backup
         (fst (addJob "job-1" 0 "unknown-type" unknownData idle))).

(** A posting job being processed and two backups waiting behind it. *)
Definition threeJobs : State :=
  wake 5 (fst (addJob "job-3" 2 "backup" backup
                 (fst (addJob "job-2" 1 "backup" backup
                         (fst (addJob "job-1" 0 "main-posting" posting idle)))))).


(** Three tiers on a running executor, the job of the highest waiting
    out its backoff after a failed first attempt. *)
Definition probe : JobData := mkJobData "health-check" medium EmptyPayload None.

Definition tiers : State :=
  processQueue 1000 (Thrown "boom")
    (fst (addJob "job-3" 2 "health-check" probe
            (fst (addJob "job-2" 1 "backup" backup
                    (fst (addJob "job-1" 0 "main-posting" posting idle)))))).

(** An acceptor of five-field expressions, standing in for [cron.validate]
    in the examples. *)
Definition fiveFields (s : string) : bool :=
  Nat.eqb (length (List.filter (Ascii.eqb Ascii.Space) (String.list_ascii_of_string s))) 4.

Definition scheduler : Cron.State :=
  fst (Cron.start fiveFields false "0 9 * * *" Cron.initial).

(** A day of the scheduler: started, the main timer fires, the schedule
    is changed, the scheduler is stopped. *)
Definition day : list Cron.Event :=
  [Cron.CStart; Cron.CFire 0 "job-1" 5; Cron.CUpdate "*/5 * * * *"; Cron.CStop].

Definition dayEnd : Cron.State * State :=
  match Cron.run fiveFields false "0 9 * * *" day (Cron.initial, initial) with
  | Some s => s
  | None => (Cron.initial, initial)
  end.

End Scenario.

Import Queue.

(** * Properties *)

(** ** Enqueue *)

Lemma length_splice i job (q : list QueueJob) :
  length (splice i job q) = S (length q).
Proof.
  unfold splice. rewrite length_app. simpl.
  pose proof (f_equal length (take_drop i q)) as H.
  rewrite length_app in H. lia.
Qed.

Lemma In_splice i job (q : list QueueJob) x :
  In x (splice i job q) <-> x = job \/ In x q.
Proof.
  unfold splice. rewrite in_app_iff. simpl.
  assert (In x q <-> In x (take i q) \/ In x (drop i q)) as ->
    by (rewrite <- in_app_iff, take_drop; reflexivity).
  intuition congruence.
Qed.

Example addJob_zero_maxAttempts :
  maxAttempts (newJob "j" 5 "backup" (mkJobData "backup" low EmptyPayload (Some 0))) = 3.
Proof. reflexivity. Qed.

(** C10. [addJob] succeeds for every type string and every job data and
    returns the new job's id; the job it inserts (at the position
    [findInsertPosition] gives) has zero attempts, status pending, no
    [nextRetry], and as [maxAttempts] the caller's value when that is a
    number other than zero and 3 otherwise.  The response is never a
    failure. *)
Theorem addJob_always_succeeds (newId : string) (now : Z) (ty : string)
    (jd : JobData) (st : State) :
  let st' := fst (addJob newId now ty jd st) in
  let r := snd (addJob newId now ty jd st) in
  let job := newJob newId now ty jd in
  successful r = true /\ resp_data r = Some newId /\ resp_error r = None /\
  queue st' = splice (findInsertPosition (queue st) (jd_priority jd)) job (queue st) /\
  In job (queue st') /\
  length (queue st') = S (length (queue st)) /\
  id job = newId /\ type job = ty /\ priority job = jd_priority jd /\
  createdAt job = now /\
  attempts job = 0 /\ status job = pending /\ nextRetry job = None /\
  error job = None /\
  maxAttempts job =
    match jd_maxAttempts jd with
    | Some n => if decide (n = 0) then 3 else n
    | None => 3
    end.
Proof.
  cbn zeta. unfold addJob. cbn [fst snd queue].
  repeat split; try reflexivity.
  - apply In_splice. now left.
  - apply length_splice.
  - cbn. destruct (jd_maxAttempts jd) as [n|]; [|reflexivity].
    cbn. destruct (Z.eqb_spec n 0); destruct (decide (n = 0)); congruence.
Qed.

(** ** Cancellation *)

Lemma getJob_In jobId q job :
  getJob jobId q = Some job -> In job q /\ id job = jobId.
Proof.
  unfold getJob. intros H. apply find_some in H as [Hin Heq].
  split; [assumption|]. now apply String.eqb_eq.
Qed.

Lemma getJob_removed jobId q :
  getJob jobId (List.filter (otherThan jobId) q) = None.
Proof.
  unfold getJob, otherThan. induction q as [|j q IH]; [reflexivity|].
  simpl. destruct (String.eqb (id j) jobId) eqn:E; simpl; [assumption|].
  rewrite E. assumption.
Qed.

Lemma filter_absent jobId q :
  ~ In jobId (map id q) -> List.filter (otherThan jobId) q = q.
Proof.
  induction q as [|j q IH]; [reflexivity|]. simpl. intros Hn.
  unfold otherThan at 1. destruct (String.eqb_spec (id j) jobId) as [Heq|Hne].
  - exfalso. apply Hn. now left.
  - simpl. f_equal. apply IH. tauto.
Qed.

Lemma cancel_removes_one jobId q job :
  NoDup (map id q) -> getJob jobId q = Some job ->
  exists l1 l2, q = l1 ++ job :: l2 /\ List.filter (otherThan jobId) q = l1 ++ l2.
Proof.
  unfold getJob. induction q as [|j q IH]; [discriminate|].
  simpl. intros Hnd Hfind. apply NoDup_cons in Hnd as [Hfresh Hnd].
  unfold otherThan at 1.
  destruct (String.eqb_spec (id j) jobId) as [Heq|Hne]; simpl.
  - injection Hfind as <-. exists [], q. split; [reflexivity|].
    simpl. apply filter_absent. rewrite <- Heq.
    intros Hin. apply Hfresh. now apply list_elem_of_In.
  - destruct (IH Hnd Hfind) as (l1 & l2 & -> & Hf).
    exists (j :: l1), l2. simpl. now rewrite Hf.
Qed.

Lemma cancelJob_pending jobId st job :
  getJob jobId (queue st) = Some job -> status job = pending ->
  cancelJob jobId st =
    (with_queue (List.filter (otherThan jobId) (queue st)) st,
     createApiResponse true "Job cancelled successfully" (Some true) None).
Proof.
  intros Hget Hs. unfold cancelJob, finished. now rewrite Hget, Hs.
Qed.

Lemma getJob_absent jobId q :
  (forall j, In j q -> id j <> jobId) -> getJob jobId q = None.
Proof.
  unfold getJob. induction q as [|x q IH]; intros Hq; [reflexivity|]. cbn.
  destruct (String.eqb_spec (id x) jobId) as [E|_].
  - exfalso. apply (Hq x); [now left|assumption].
  - apply IH. intros j Hj. apply Hq. now right.
Qed.

Lemma getJob_first jobId l1 job l2 :
  id job = jobId -> (forall x, In x l1 -> id x <> jobId) ->
  getJob jobId (l1 ++ job :: l2) = Some job.
Proof.
  intros Hid Hl1. unfold getJob.
  induction l1 as [|x l1 IH]; cbn.
  - now rewrite Hid, String.eqb_refl.
  - destruct (String.eqb_spec (id x) jobId) as [E|_].
    + exfalso. apply (Hl1 x); [now left|assumption].
    + apply IH. intros y Hy. apply Hl1. now right.
Qed.

Lemma filter_first jobId l1 job l2 :
  id job = jobId -> (forall x, In x l1 -> id x <> jobId) ->
  List.filter (otherThan jobId) (l1 ++ job :: l2)
  = l1 ++ List.filter (otherThan jobId) l2.
Proof.
  intros Hid Hl1. rewrite List.filter_app. cbn [List.filter].
  unfold otherThan at 2. rewrite Hid, String.eqb_refl. cbn [negb]. f_equal.
  induction l1 as [|x l1 IH]; [reflexivity|]. cbn [List.filter].
  unfold otherThan at 1.
  destruct (String.eqb_spec (id x) jobId) as [E|_].
  - exfalso. apply (Hl1 x); [now left|assumption].
  - cbn [negb]. f_equal. apply IH. intros y Hy. apply Hl1. now right.
Qed.

(** C6. [cancelJob], by what the queue holds.  If no job of the queue
    has the id, the answer is the failure "Job not found" and the state
    is as it was.  Otherwise take the first job of the queue with that
    id, which is the one [getJob] returns: if it is processing, or
    completed or failed, the answer is a failure and the state is as it
    was; if it is pending, the answer is a success, the queue loses the
    jobs of that id and no other, in place, [getJob] then finds nothing,
    and with distinct ids the job cancelled is the only one removed. *)
Theorem cancelJob_by_status (jobId : string) (st : State) :
  ((forall j, In j (queue st) -> id j <> jobId) ->
   getJob jobId (queue st) = None /\
   cancelJob jobId st =
     (st, createApiResponse false "Job not found" (Some false)
                            (Some "Job ID does not exist"))) /\
  (forall l1 job l2,
     queue st = l1 ++ job :: l2 -> id job = jobId ->
     (forall x, In x l1 -> id x <> jobId) ->
     let st' := fst (cancelJob jobId st) in
     let r := snd (cancelJob jobId st) in
     getJob jobId (queue st) = Some job /\
     match status job with
     | processing =>
         st' = st /\
         r = createApiResponse false "Cannot cancel processing job" (Some false)
                               (Some "Job is currently being processed")
     | completed | failed =>
         st' = st /\
         r = createApiResponse false "Job already finished" (Some false)
                               (Some "Job has already completed or failed")
     | pending =>
         r = createApiResponse true "Job cancelled successfully" (Some true) None /\
         getJob jobId (queue st') = None /\
         ~ In job (queue st') /\
         queue st' = l1 ++ List.filter (otherThan jobId) l2 /\
         (forall j, In j (queue st') <-> In j (queue st) /\ id j <> jobId) /\
         (NoDup (map id (queue st)) -> queue st' = l1 ++ l2) /\
         isProcessing st' = isProcessing st /\ inflight st' = inflight st
     end).
Proof.
  split.
  { intros Hnone. pose proof (getJob_absent jobId (queue st) Hnone) as Hget.
    split; [assumption|]. unfold cancelJob. now rewrite Hget. }
  intros l1 job l2 Hq Hid Hl1. cbn zeta.
  assert (getJob jobId (queue st) = Some job) as Hget
    by (rewrite Hq; now apply getJob_first).
  split; [assumption|].
  destruct (status job) eqn:Hs;
    try (unfold cancelJob, finished; rewrite Hget, Hs; now split).
  rewrite (cancelJob_pending _ _ _ Hget Hs). cbn [fst snd with_queue queue].
  split; [reflexivity|]. split; [apply getJob_removed|].
  split.
  { intros H. apply filter_In in H as [_ H]. unfold otherThan in H.
    rewrite Hid, String.eqb_refl in H. discriminate. }
  split; [rewrite Hq; now apply filter_first|]. split.
  { intros j. rewrite filter_In. unfold otherThan.
    destruct (String.eqb_spec (id j) jobId); simpl; intuition congruence. }
  split; [|now split].
  intros Hnd. rewrite Hq, filter_first by assumption. f_equal.
  apply filter_absent. rewrite Hq, map_app in Hnd. cbn [map] in Hnd.
  apply NoDup_app in Hnd as (_ & _ & Hnd). apply NoDup_cons in Hnd as [Hfresh _].
  rewrite <- Hid. intros Hin. apply Hfresh. now apply list_elem_of_In.
Qed.

(** The theorem at work on a queue of three jobs: the first cannot be
    cancelled while it is processing; cancelling the second leaves the
    first and the third. *)
Lemma cancelJob_by_status_witness :
  let first := startJob (newJob "job-1" 0 "main-posting" Scenario.posting) in
  let second := newJob "job-2" 1 "backup" Scenario.backup in
  let third := newJob "job-3" 2 "backup" Scenario.backup in
  queue Scenario.threeJobs = [first; second; third] /\
  fst (cancelJob "job-1" Scenario.threeJobs) = Scenario.threeJobs /\
  queue (fst (cancelJob "job-2" Scenario.threeJobs)) = [first; third] /\
  getJob "job-2" (queue (fst (cancelJob "job-2" Scenario.threeJobs))) = None.
Proof.
  cbn zeta.
  pose proof (proj2 (cancelJob_by_status "job-1" Scenario.threeJobs)
                [] _ _ eq_refl eq_refl ltac:(intros x []))
    as (_ & Hrunning & _).
  pose proof (proj2 (cancelJob_by_status "job-2" Scenario.threeJobs)
                [startJob (newJob "job-1" 0 "main-posting" Scenario.posting)] _ _
                eq_refl eq_refl ltac:(intros x [<-|[]]; discriminate))
    as (_ & _ & Hgone & _ & Hqueue & _).
  split; [reflexivity|]. split; [exact Hrunning|]. split; [exact Hqueue|exact Hgone].
Defined.

(** ** Retention *)

Lemma cleanupOldJobs_length now q : (length (cleanupOldJobs now q) <= maxJobs)%nat.
Proof.
  unfold cleanupOldJobs.
  destruct (Nat.leb_spec (length q) maxJobs) as [H|H]; [assumption|].
  cbn zeta.
  destruct (Nat.ltb_spec maxJobs (length (List.filter (keepJob now) q))) as [H'|H'].
  - rewrite length_take. lia.
  - assumption.
Qed.

Lemma In_take_weaken (n : nat) (l : list QueueJob) x : In x (take n l) -> In x l.
Proof.
  intros H. rewrite <- (take_drop n l). apply in_or_app. now left.
Qed.

Lemma In_insertByRecency x y l :
  In x (insertByRecency y l) <-> x = y \/ In x l.
Proof.
  induction l as [|z l IH]; simpl; [intuition congruence|].
  destruct (createdAt y <? createdAt z); simpl; [rewrite IH|]; intuition congruence.
Qed.

Lemma In_sortByRecency x l : In x (sortByRecency l) <-> In x l.
Proof.
  induction l as [|y l IH]; simpl; [reflexivity|].
  rewrite In_insertByRecency, IH. intuition congruence.
Qed.

Lemma In_cleanupOldJobs now q x : In x (cleanupOldJobs now q) -> In x q.
Proof.
  unfold cleanupOldJobs. destruct (Nat.leb (length q) maxJobs); [trivial|].
  cbn zeta. destruct (Nat.ltb maxJobs _).
  - intros H. apply In_take_weaken, In_sortByRecency, filter_In in H. tauto.
  - intros H. apply filter_In in H. tauto.
Qed.

Lemma In_retain now res job q x : In x (retain now res job q) -> In x q.
Proof.
  unfold retain. destruct (rejects res job); [trivial|apply In_cleanupOldJobs].
Qed.

Lemma rejects_false_iff res job :
  rejects res job = false <->
  successful res = true \/ maxAttempts job <= attempts job \/ attempts job <= 37.
Proof.
  unfold rejects, failureThrows, printableRetry.
  destruct (successful res); cbn [negb andb]; [tauto|].
  destruct (Z.geb_spec (attempts job) (maxAttempts job));
    destruct (Z.leb_spec (attempts job) 37); cbn [negb andb];
    intuition (discriminate || lia).
Qed.

(** C7, as stated, fails.  After the burst and its one completed cycle
    the queue holds 100 jobs, none of them processing and no handler
    awaited; two more calls of [addJob] leave 102 jobs, still with
    nothing processing: the count is above the cap outside any
    processing cycle.  And a call of [processQueue] that is left by the
    throw of its failure path runs no retention pass: with 101 jobs in
    the queue and the job in hand at its 38th failed attempt, 101 jobs
    remain. *)
Lemma total_exceeds_cap_at_rest :
  exists st st2,
    run Scenario.burstThenOneCycle initial = Some st /\
    totalJobs (getQueueStatus st) = 100%nat /\
    run [Scenario.enqueue "backup" Scenario.backup 201;
         Scenario.enqueue "backup" Scenario.backup 202] st = Some st2 /\
    totalJobs (getQueueStatus st2) = 102%nat /\
    processingJobs (getQueueStatus st2) = 0%nat /\ inflight st2 = [] /\
    totalJobs (getQueueStatus
                 (resume 1000 (Thrown "boom") Scenario.flaky Scenario.crowded))
      = 101%nat.
Proof.
  eexists _, _. split; [vm_compute; reflexivity|].
  split; [vm_compute; reflexivity|].
  split; [vm_compute; reflexivity|].
  split; [reflexivity|]. split; [vm_compute; reflexivity|].
  split; [reflexivity|]. vm_compute. reflexivity.
Qed.

Lemma retain_length now res job q :
  rejects res job = false -> (length (retain now res job q) <= maxJobs)%nat.
Proof. intros H. unfold retain. rewrite H. apply cleanupOldJobs_length. Qed.

(** C7, amended. Right after the retention pass that ends a call of
    [processQueue], the total that [getQueueStatus] reports is at most
    100: for the rest of the call once the handler has answered, for any
    job object and state, and for a whole call that selects a job, as
    long as the call reaches its retention pass.  A call that selects no
    job leaves the state as it was.  Outside the calls the count is not
    bounded: each [addJob] raises it by one. *)
Theorem total_bounded_after_processed_job (now : Z) (c : Collab)
    (job : QueueJob) (st : State) :
  rejects (fst (executeJob now c job (queue st))) job = false ->
  (totalJobs (getQueueStatus (resume now c job st)) <= 100)%nat /\
  (totalJobs (getQueueStatus (dropInflight (id job) (resume now c job st))) <= 100)%nat /\
  match selectNext now st with
  | Some j =>
      rejects (fst (executeJob now c (startJob j) (queue (wake now st)))) (startJob j)
        = false ->
      (totalJobs (getQueueStatus (processQueue now c st)) <= 100)%nat
  | None => processQueue now c st = st
  end /\
  (forall newId t ty jd,
     totalJobs (getQueueStatus (fst (addJob newId t ty jd st)))
     = S (totalJobs (getQueueStatus st))).
Proof.
  assert (forall j s, rejects (fst (executeJob now c j (queue s))) j = false ->
            (length (queue (resume now c j s)) <= 100)%nat) as Hres.
  { intros j s Hj. unfold resume.
    destruct (executeJob now c j (queue s)) as [res q1]. cbn [fst] in Hj. cbn.
    now apply retain_length. }
  intros Hjob.
  split; [now apply Hres|]. split; [now apply Hres|]. split.
  - unfold processQueue. destruct (selectNext now st); [|reflexivity].
    intros Hj. cbn. now apply Hres.
  - intros newId t ty jd. unfold addJob, getQueueStatus.
    cbn [fst queue totalJobs]. apply length_splice.
Qed.

Lemma total_bounded_after_processed_job_witness :
  totalJobs (getQueueStatus Scenario.started) = 102%nat /\
  (totalJobs (getQueueStatus
                (resume 104 (Returned Scenario.done) Scenario.firstRunning
                        Scenario.started)) <= 100)%nat.
Proof.
  split; [vm_compute; reflexivity|].
  exact (proj1 (total_bounded_after_processed_job 104 (Returned Scenario.done)
                  Scenario.firstRunning Scenario.started eq_refl)).
Defined.


(** Membership in a concrete list, by computation. *)
Lemma In_by_decide (j : QueueJob) (l : list QueueJob) :
  bool_decide (j ∈ l) = true -> In j l.
Proof. intros H. apply list_elem_of_In. now apply bool_decide_eq_true in H. Qed.

Lemma not_In_by_decide (j : QueueJob) (l : list QueueJob) :
  bool_decide (j ∈ l) = false -> ~ In j l.
Proof.
  intros H Hin. apply list_elem_of_In in Hin.
  apply bool_decide_eq_false in H. contradiction.
Qed.




(** ** Updating the schedule *)

(** C9. When [cron.validate] rejects the new expression,
    [updateMainSchedule] answers with the failure "Invalid cron schedule"
    and the scheduler's state is the one it was: every schedule keeps its
    expression, its task handle and its last run, and every task, started
    or not, is as before. *)
Theorem updateMainSchedule_invalid_keeps_state (validate : string -> bool)
    (runNow : bool) (newSchedule : string) (st : Cron.State) :
  validate newSchedule = false ->
  Cron.updateMainSchedule validate runNow newSchedule st =
    (st, createApiResponse false "Invalid cron schedule" (Some false)
                           (Some "Schedule format is invalid")) /\
  (forall n : string,
     Cron.jobs (fst (Cron.updateMainSchedule validate runNow newSchedule st)) !! n
     = Cron.jobs st !! n) /\
  Cron.tasks (fst (Cron.updateMainSchedule validate runNow newSchedule st))
  = Cron.tasks st.
Proof.
  intros Hbad. unfold Cron.updateMainSchedule. rewrite Hbad. cbn.
  repeat split.
Qed.

Lemma updateMainSchedule_invalid_keeps_state_witness :
  Scenario.fiveFields "not-a-cron" = false /\
  fst (Cron.updateMainSchedule Scenario.fiveFields false "not-a-cron" Scenario.scheduler)
  = Scenario.scheduler /\
  (exists info t,
     Cron.jobs Scenario.scheduler !! "main-posting" = Some info /\
     Cron.schedule info = "0 9 * * *" /\ Cron.task info = Some t /\
     Cron.tasks Scenario.scheduler !! t = Some (Cron.mkTask "0 9 * * *" "main-posting" true)).
Proof.
  split; [reflexivity|]. split.
  - exact (f_equal fst (proj1 (updateMainSchedule_invalid_keeps_state
             Scenario.fiveFields false "not-a-cron" Scenario.scheduler eq_refl))).
  - eexists _, _. vm_compute. repeat split.
Defined.

(** ** One cycle on a queue of one job *)

Lemma executeJob_keeps_running_job now c j :
  snd (executeJob now c (startJob j) [startJob j]) = [startJob j].
Proof.
  unfold executeJob.
  destruct (String.eqb (type (startJob j)) "main-posting"); [reflexivity|].
  destruct (String.eqb (type (startJob j)) "health-check"); [reflexivity|].
  destruct (String.eqb (type (startJob j)) "cleanup"); [reflexivity|].
  destruct (String.eqb (type (startJob j)) "backup"); reflexivity.
Qed.

(** For a clock of the present era the retry instant is one a [Date]
    holds exactly when the exponent is at most 37. *)
Lemma printableRetry_in_era now n :
  0 <= now <= eraEnd -> 0 <= n ->
  printableRetry n = true <-> now + retryDelay n <= maxInstant.
Proof.
  intros Hnow Hn. unfold printableRetry, retryDelay, eraEnd, maxInstant in *.
  rewrite Z.leb_le. split; intros H.
  - assert (2 ^ n <= 2 ^ 37) as Hp by (apply Z.pow_le_mono_r; lia).
    change (2 ^ 37) with 137438953472 in Hp. lia.
  - destruct (Z.le_gt_cases n 37) as [|Hgt]; [assumption|]. exfalso.
    assert (2 ^ 38 <= 2 ^ n) as Hp by (apply Z.pow_le_mono_r; lia).
    change (2 ^ 38) with 274877906944 in Hp. lia.
Qed.

(** The three ways the failure path leaves a job: failed; pending with
    a retry instant; pending with the message of the throw. *)
Lemma recordFailure_shape now err j :
  (maxAttempts j <= attempts j /\
   recordFailure now err j = set_status failed (set_error (Some err) j)) \/
  (attempts j < maxAttempts j /\ attempts j <= 37 /\
   recordFailure now err j =
     set_nextRetry (Some (now + retryDelay (attempts j)))
                   (set_status pending (set_error (Some err) j))) \/
  (attempts j < maxAttempts j /\ 37 < attempts j /\
   recordFailure now err j =
     set_status pending (set_error (Some "Invalid time value") j)).
Proof.
  unfold recordFailure, failureThrows, handleJobFailure, printableRetry.
  cbn [attempts maxAttempts set_error set_status].
  pose proof (Z.geb_spec (attempts j) (maxAttempts j)) as H.
  pose proof (Z.leb_spec (attempts j) 37) as H'.
  destruct (attempts j >=? maxAttempts j) eqn:E; inversion H; cbn [negb andb].
  - left. split; [assumption|reflexivity].
  - destruct (attempts j <=? 37) eqn:E'; inversion H'; cbn [negb].
    + right. left. repeat split; assumption || reflexivity.
    + right. right. split; [assumption|]. split; [assumption|].
      cbn [attempts maxAttempts set_error set_status]. now rewrite E, E'.
Qed.

Ltac failure_shape now err j :=
  destruct (recordFailure_shape now err j)
    as [(? & ->) | [(? & ? & ->) | (? & ? & ->)]].

Lemma settle_id now res j : id (settle now res j) = id j.
Proof.
  unfold settle. destruct (successful res); [reflexivity|].
  failure_shape now (errorOrUnknown (resp_error res)) j; reflexivity.
Qed.

Lemma retain_under_cap now res job q :
  (length q <= maxJobs)%nat -> retain now res job q = q.
Proof.
  intros H. unfold retain, cleanupOldJobs. destruct (rejects res job); [reflexivity|].
  destruct (Nat.leb_spec (length q) maxJobs); [reflexivity|lia].
Qed.

Lemma cycle_on_single_job now c j st :
  queue st = [j] -> isProcessing st = true -> eligible now j = true ->
  queue (processQueue now c st) =
    [settle now (fst (executeJob now c (startJob j) [startJob j])) (startJob j)].
Proof.
  intros Hq Hrun Hel.
  unfold processQueue, wake, selectNext. rewrite Hq, Hrun. cbn [negb orb length Nat.eqb].
  cbn [List.find]. rewrite Hel. cbn [markNext]. rewrite Hel.
  unfold resume. cbn [queue].
  pose proof (executeJob_keeps_running_job now c j) as Hkeep.
  destruct (executeJob now c (startJob j) [startJob j]) as [res q1].
  cbn [fst snd] in *. subst q1.
  cbn [dropInflight with_queue queue writeBack map].
  rewrite settle_id, String.eqb_refl. apply retain_under_cap. cbn. unfold maxJobs. lia.
Qed.

Lemma executeJob_unregistered now c j q :
  registered (type j) = false ->
  executeJob now c j q =
    (createApiResponse false (String.append "Unknown job type: " (type j)) None
                       (Some "Job type not supported"), q).
Proof.
  unfold registered, executeJob. intros H.
  destruct (String.eqb (type j) "main-posting"); [discriminate|].
  destruct (String.eqb (type j) "health-check"); [discriminate|].
  destruct (String.eqb (type j) "cleanup"); [discriminate|].
  destruct (String.eqb (type j) "backup"); [discriminate|]. reflexivity.
Qed.

(** ** Retry policy *)

Lemma failing_cycle now e j st :
  queue st = [j] -> isProcessing st = true -> eligible now j = true ->
  type j = "main-posting" ->
  queue (processQueue now (Thrown e) st) =
    [failedAttempt now (errorOrUnknown (Some e)) j].
Proof.
  intros Hq Hrun Hel Hty.
  rewrite (cycle_on_single_job now (Thrown e) j st Hq Hrun Hel).
  unfold executeJob. cbn [type startJob set_attempts set_status].
  rewrite Hty. reflexivity.
Qed.

Lemma failedAttempt_retry now e j :
  attempts j + 1 < maxAttempts j -> attempts j + 1 <= 37 ->
  failedAttempt now e j =
    set_nextRetry (Some (now + retryDelay (attempts j + 1)))
                  (set_status pending (set_error (Some e) (startJob j))).
Proof.
  intros H H37. unfold failedAttempt.
  failure_shape now e (startJob j); cbn in *; (reflexivity || lia).
Qed.

Lemma failedAttempt_terminal now e j :
  maxAttempts j <= attempts j + 1 ->
  failedAttempt now e j = set_status failed (set_error (Some e) (startJob j)).
Proof.
  intros H. unfold failedAttempt.
  failure_shape now e (startJob j); cbn in *; (reflexivity || lia).
Qed.

(** C3, as stated, fails: the first failed attempt schedules the retry
    120 s later, not 60 s, the second 240 s later, not 120 s, and the
    third schedules none (the job keeps the instant set by the second). *)
Lemma backoff_is_not_60_120_240 :
  map (fun j => (attempts j, status j, nextRetry j)) (queue Scenario.afterFailure1)
    = [(1, pending, Some (1000 + 120 * 1000))] /\
  map (fun j => (attempts j, status j, nextRetry j)) (queue Scenario.afterFailure2)
    = [(2, pending, Some (200000 + 240 * 1000))] /\
  map (fun j => (attempts j, status j, nextRetry j)) (queue Scenario.afterFailure3)
    = [(3, failed, Some (200000 + 240 * 1000))] /\
  map nextRetry (queue Scenario.afterFailure1) <> [Some (1000 + 60 * 1000)] /\
  map nextRetry (queue Scenario.afterFailure3) <> [Some (500000 + 240 * 1000)].
Proof. vm_compute. repeat split; discriminate. Qed.

(** C3, amended. For a job with [maxAttempts = 3] that fails at every
    attempt: the first two failed attempts leave it pending with a
    [nextRetry] later than the instant of the failure, the second delay
    twice the first; the third failed attempt sets no [nextRetry] and
    makes the job failed, after the third attempt and not before. *)
Theorem three_failures_then_failed (j : QueueJob) (t1 t2 t3 : Z)
    (e1 e2 e3 : string) :
  attempts j = 0 -> maxAttempts j = 3 ->
  let j1 := failedAttempt t1 e1 j in
  let j2 := failedAttempt t2 e2 j1 in
  let j3 := failedAttempt t3 e3 j2 in
  (attempts j1 = 1 /\ status j1 = pending) /\
  (attempts j2 = 2 /\ status j2 = pending) /\
  (attempts j3 = 3 /\ status j3 = failed /\ error j3 = Some e3) /\
  (exists d, 0 < d /\ nextRetry j1 = Some (t1 + d) /\
             nextRetry j2 = Some (t2 + 2 * d)) /\
  nextRetry j3 = nextRetry j2.
Proof.
  intros Ha Hm. cbn zeta.
  rewrite (failedAttempt_retry t1 e1 j) by lia.
  set (j1 := set_nextRetry _ _).
  assert (attempts j1 = 1 /\ maxAttempts j1 = 3) as [Ha1 Hm1]
    by (subst j1; cbn; lia).
  rewrite (failedAttempt_retry t2 e2 j1) by lia.
  set (j2 := set_nextRetry _ _).
  assert (attempts j2 = 2 /\ maxAttempts j2 = 3) as [Ha2 Hm2]
    by (subst j2; cbn; lia).
  rewrite (failedAttempt_terminal t3 e3 j2) by lia.
  split; [split; [exact Ha1|reflexivity]|].
  split; [split; [exact Ha2|reflexivity]|].
  split; [split; [cbn; lia|split; reflexivity]|].
  split; [|reflexivity].
  exists (retryDelay 1). split; [reflexivity|]. split.
  - subst j1. cbn [nextRetry set_nextRetry]. rewrite Ha. reflexivity.
  - subst j2. cbn [nextRetry set_nextRetry]. rewrite Ha1. reflexivity.
Qed.

Lemma three_failures_then_failed_witness :
  status (failedAttempt 500000 "boom"
            (failedAttempt 200000 "boom"
               (failedAttempt 1000 "boom" Scenario.fresh))) = failed.
Proof.
  exact (proj1 (proj2 (proj1 (proj2 (proj2
    (three_failures_then_failed Scenario.fresh 1000 200000 500000
       "boom" "boom" "boom" eq_refl eq_refl)))))).
Defined.

(** ** Unregistered job types *)

(** C4, as stated, fails: a job of an unregistered type with the default
    three attempts is, after one cycle, pending with a [nextRetry], and
    the executor selects it again once that instant has come. *)
Lemma unregistered_type_is_retried :
  registered "unknown-type" = false /\
  map (fun j => (attempts j, status j, nextRetry j)) (queue Scenario.afterUnknown)
    = [(1, pending, Some (1000 + 120 * 1000))] /\
  option_map id (selectNext 121000 Scenario.afterUnknown) = Some "job-1".
Proof. vm_compute. repeat split. Qed.

Lemma length_markNext now q : length (markNext now q) = length q.
Proof.
  induction q as [|x q IH]; [reflexivity|]. cbn [markNext].
  destruct (eligible now x); cbn [length]; congruence.
Qed.

Lemma find_skips (f : QueueJob -> bool) l1 x l2 :
  Forall (fun y => f y = false) l1 -> f x = true ->
  List.find f (l1 ++ x :: l2) = Some x.
Proof.
  induction 1 as [|y l1 Hy _ IH]; intros Hx; cbn.
  - now rewrite Hx.
  - rewrite Hy. now apply IH.
Qed.

Lemma markNext_split now q j :
  List.find (eligible now) q = Some j ->
  exists l1 l2,
    q = l1 ++ j :: l2 /\ markNext now q = l1 ++ startJob j :: l2 /\
    Forall (fun x => eligible now x = false) l1.
Proof.
  induction q as [|x q IH]; [discriminate|]. cbn [List.find markNext].
  destruct (eligible now x) eqn:Hel.
  - intros [= <-]. exists [], q. repeat split. constructor.
  - intros Hfind. destruct (IH Hfind) as (l1 & l2 & -> & -> & Hl1).
    exists (x :: l1), l2. repeat split. now constructor.
Qed.

(** C4, amended. When a cycle dispatches a job that has made no attempt
    and whose type has no registered handler, the job is left with one
    attempt and the error "Job type not supported", and the ordinary
    retry policy decides: with [maxAttempts] at most 1 the job is failed,
    its [nextRetry] untouched, and is never eligible again; otherwise it
    is pending with a [nextRetry], and from that instant on a wake
    selects it again, for its second attempt, as soon as no job before
    it in the queue is eligible.  The queue holds the job in no other
    state, and holds it if the queue had at most 100 jobs. *)
Theorem unregistered_type_follows_retry_policy (now : Z) (c : Collab)
    (st : State) (j : QueueJob) :
  selectNext now st = Some j -> registered (type j) = false -> attempts j = 0 ->
  let st' := processQueue now c st in
  let j' := failedAttempt now "Job type not supported" j in
  (attempts j' = 1 /\ error j' = Some "Job type not supported" /\
   id j' = id j /\ type j' = type j /\ maxAttempts j' = maxAttempts j) /\
  (forall x, In x (queue st') -> id x = id j -> x = j') /\
  ((length (queue st) <= 100)%nat -> In j' (queue st')) /\
  if decide (maxAttempts j <= 1)
  then status j' = failed /\ nextRetry j' = nextRetry j /\
       (forall now2, eligible now2 j' = false)
  else status j' = pending /\ nextRetry j' = Some (now + retryDelay 1) /\
       (forall now2 l1 l2,
          now + retryDelay 1 <= now2 -> queue st' = l1 ++ j' :: l2 ->
          Forall (fun x => eligible now2 x = false) l1 ->
          selectNext now2 st' = Some j' /\ attempts (startJob j') = 2).
Proof.
  intros Hsel Hreg Ha. cbn zeta.
  set (j' := failedAttempt now "Job type not supported" j).
  assert (isProcessing st = true /\ List.find (eligible now) (queue st) = Some j)
    as [Hrun Hfind].
  { unfold selectNext in Hsel. destruct (isProcessing st); [|discriminate].
    destruct (Nat.eqb (length (queue st)) 0); [discriminate|]. now split. }
  destruct (markNext_split now (queue st) j Hfind) as (m1 & m2 & Hq & Hmark & _).
  assert (queue (processQueue now c st)
          = retain now (createApiResponse false
                          (String.append "Unknown job type: " (type j)) None
                          (Some "Job type not supported"))
                   (startJob j) (writeBack j' (markNext now (queue st)))
          /\ isProcessing (processQueue now c st) = true) as [Hqueue Hrun'].
  { unfold processQueue, wake. rewrite Hsel. unfold resume. cbn [queue].
    rewrite executeJob_unregistered by exact Hreg. now split. }
  assert (id j' = id j) as Hid
    by (unfold j', failedAttempt;
        failure_shape now "Job type not supported" (startJob j); reflexivity).
  split.
  { destruct (Z.le_gt_cases (maxAttempts j) 1).
    - unfold j'. rewrite failedAttempt_terminal by lia. cbn. repeat split; lia.
    - unfold j'. rewrite failedAttempt_retry by lia. cbn. repeat split; lia. }
  split.
  { intros x Hx Hxid. rewrite Hqueue in Hx. apply In_retain in Hx.
    unfold writeBack in Hx. apply in_map_iff in Hx as (y & Hy & _).
    destruct (String.eqb_spec (id y) (id j')) as [_|Hne]; [now subst x|].
    subst x. congruence. }
  split.
  { intros Hlen. rewrite Hqueue, retain_under_cap
      by (unfold writeBack, maxJobs; rewrite length_map, length_markNext; exact Hlen).
    unfold writeBack. apply in_map_iff. exists (startJob j). split.
    - change (id (startJob j)) with (id j). now rewrite Hid, String.eqb_refl.
    - rewrite Hmark. apply in_or_app. right. now left. }
  destruct (decide (maxAttempts j <= 1)) as [Hmax|Hmax].
  - unfold j'. rewrite failedAttempt_terminal by lia. cbn [status nextRetry set_status
      set_error startJob set_attempts]. repeat split.
  - unfold j'. rewrite failedAttempt_retry by lia.
    cbn [status nextRetry set_status set_error set_nextRetry startJob set_attempts
         attempts].
    rewrite Ha. split; [reflexivity|]. split; [reflexivity|].
    intros now2 l1 l2 Hdue Hshape Hl1.
    split; [|reflexivity].
    unfold selectNext. rewrite Hrun', Hshape.
    rewrite length_app. cbn [length negb orb].
    replace (Nat.eqb (length l1 + S (length l2)) 0) with false
      by (symmetry; apply Nat.eqb_neq; lia).
    apply find_skips; [assumption|].
    unfold eligible. cbn. apply Z.leb_le. exact Hdue.
Qed.

Lemma unregistered_type_follows_retry_policy_witness :
  let j := newJob "job-1" 0 "unknown-type" Scenario.unknownData in
  let j' := failedAttempt 1000 "Job type not supported" j in
  let st' := processQueue 1000 (Returned Scenario.done) Scenario.twoJobs in
  queue st' = [j'; newJob "job-2" 1 "backup" Scenario.backup] /\
  status j' = pending /\
  selectNext 121000 st' = Some j' /\ attempts (startJob j') = 2.
Proof.
  cbn zeta.
  pose proof (unregistered_type_follows_retry_policy 1000 (Returned Scenario.done)
                Scenario.twoJobs (newJob "job-1" 0 "unknown-type" Scenario.unknownData)
                eq_refl eq_refl eq_refl) as (_ & _ & _ & Hpolicy).
  destruct (decide _) as [Hmax|_] in Hpolicy; [vm_compute in Hmax; now destruct Hmax|].
  destruct Hpolicy as (Hpending & _ & Hagain).
  split; [vm_compute; reflexivity|]. split; [exact Hpending|].
  apply (Hagain 121000 [] [newJob "job-2" 1 "backup" Scenario.backup]).
  - vm_compute. discriminate.
  - vm_compute. reflexivity.
  - constructor.
Defined.

(** ** Manual trigger *)

(** C5, as stated, fails: the job enqueued by the manual trigger has the
    type "main-posting-manual", which is not "main-posting" and which
    [executeJob] has no case for, and the response carries [true], not
    the job's id. *)
Lemma manual_trigger_type_and_answer :
  let out := Cron.triggerMainJob "job-1" 5 Scenario.scheduler Scenario.idle in
  map (fun j => (id j, type j, priority j)) (queue (snd (fst out)))
    = [("job-1", "main-posting-manual", high)] /\
  "main-posting-manual" <> "main-posting" /\
  registered "main-posting-manual" = false /\
  registered "main-posting" = true /\
  resp_data (snd out) = Some true.
Proof. vm_compute. repeat split. discriminate. Qed.

(** C5, amended. The manual trigger of the main schedule, whatever the
    state of the scheduler and of its timers, enqueues at once one new
    job, pending, with no attempt made, of priority high and marked
    manual, at the place [findInsertPosition] gives; it leaves the
    scheduler as it was and answers with a success carrying [true]. *)
Theorem manual_trigger_enqueues_high (newId : string) (now : Z)
    (cs : Cron.State) (qs : State) :
  let out := Cron.triggerMainJob newId now cs qs in
  fst (fst out) = cs /\
  (exists job,
     queue (snd (fst out)) = splice (findInsertPosition (queue qs) high) job (queue qs) /\
     In job (queue (snd (fst out))) /\
     id job = newId /\ priority job = high /\ status job = pending /\
     attempts job = 0 /\ nextRetry job = None /\ data job = ManualPayload /\
     createdAt job = now) /\
  length (queue (snd (fst out))) = S (length (queue qs)) /\
  isProcessing (snd (fst out)) = isProcessing qs /\
  immediates (snd (fst out)) =
    (if isProcessing qs then S (immediates qs) else immediates qs) /\
  snd out = createApiResponse true "Main job triggered manually" (Some true) None.
Proof.
  cbn zeta. unfold Cron.triggerMainJob, addJob.
  cbn [fst snd queue immediates isProcessing].
  split; [reflexivity|]. split.
  - eexists. split; [reflexivity|]. split; [apply In_splice; now left|].
    repeat split.
  - split; [apply length_splice|]. repeat split.
Qed.

(** ** Insertion and dequeue order *)

Lemma findInsertPositionFrom_shift w q : forall i,
  findInsertPositionFrom w q i = (i + findInsertPositionFrom w q 0)%nat.
Proof.
  induction q as [|x q IH]; intros i; simpl; [lia|].
  destruct (priorityOrder (priority x) <? w); [lia|].
  rewrite (IH (S i)), (IH 1%nat). lia.
Qed.

Lemma findInsertPosition_cons x q p :
  findInsertPosition (x :: q) p =
    if priorityOrder (priority x) <? priorityOrder p then 0%nat
    else S (findInsertPosition q p).
Proof.
  unfold findInsertPosition. simpl.
  destruct (priorityOrder (priority x) <? priorityOrder p); [reflexivity|].
  now rewrite findInsertPositionFrom_shift.
Qed.

(** X2. The position [findInsertPosition] gives: every job before it weighs
    at least as much as the new one, and the job at it, if there is one,
    weighs strictly less; with no such job the position is the end. *)
Lemma findInsertPosition_first_lower q p :
  let i := findInsertPosition q p in
  Forall (fun j => priorityOrder p <= priorityOrder (priority j)) (take i q) /\
  match drop i q with
  | [] => i = length q
  | j :: _ => priorityOrder (priority j) < priorityOrder p
  end.
Proof.
  cbn zeta. induction q as [|x q [IHt IHd]]; [now split|].
  rewrite findInsertPosition_cons.
  destruct (Z.ltb_spec (priorityOrder (priority x)) (priorityOrder p)) as [H|H].
  - split; [constructor|exact H].
  - cbn [take drop]. split; [now constructor|].
    destruct (drop (findInsertPosition q p) q);
      [cbn [length]; congruence|assumption].
Qed.

Lemma byPriority_splice q job :
  byPriority q ->
  byPriority (splice (findInsertPosition q (priority job)) job q).
Proof.
  induction q as [|x q IH]; [intros _; repeat constructor|].
  intros [Hx Hq]. rewrite findInsertPosition_cons.
  destruct (Z.ltb_spec (priorityOrder (priority x)) (priorityOrder (priority job)))
    as [H|H].
  - unfold splice. cbn [take drop app byPriority]. split; [|now split].
    constructor; [lia|]. eapply Forall_impl; [exact Hx|]. cbn. intros; lia.
  - change (splice (S (findInsertPosition q (priority job))) job (x :: q))
      with (x :: splice (findInsertPosition q (priority job)) job q).
    split; [|now apply IH].
    apply Forall_forall. intros k Hk.
    apply list_elem_of_In, In_splice in Hk as [-> | Hk]; [exact H|].
    rewrite Forall_forall in Hx. now apply Hx, list_elem_of_In.
Qed.

(** [addJob] keeps the queue in priority order. *)
Lemma addJob_byPriority newId now ty jd st :
  byPriority (queue st) -> byPriority (queue (fst (addJob newId now ty jd st))).
Proof. intros H. unfold addJob. cbn [fst queue]. now apply byPriority_splice. Qed.

(** On a queue in priority order [addJob] puts the new job behind every
    resident job that weighs at least as much: first in, first out
    within a tier. *)
Lemma addJob_behind_equals newId now ty jd st a :
  byPriority (queue st) -> In a (queue st) ->
  priorityOrder (jd_priority jd) <= priorityOrder (priority a) ->
  exists l1 l2,
    queue (fst (addJob newId now ty jd st)) = l1 ++ newJob newId now ty jd :: l2 /\
    In a l1.
Proof.
  intros Hord Hin Hw. unfold addJob. cbn [fst queue]. unfold splice.
  set (job := newJob newId now ty jd).
  change (priority job) with (jd_priority jd).
  exists (take (findInsertPosition (queue st) (jd_priority jd)) (queue st)),
         (drop (findInsertPosition (queue st) (jd_priority jd)) (queue st)).
  split; [reflexivity|]. clear job.
  induction (queue st) as [|x q IH]; [contradiction|].
  destruct Hord as [Hx Hq]. rewrite findInsertPosition_cons.
  destruct (Z.ltb_spec (priorityOrder (priority x)) (priorityOrder (jd_priority jd)))
    as [H|H].
  - exfalso. destruct Hin as [-> | Hin]; [lia|].
    rewrite Forall_forall in Hx. apply list_elem_of_In, Hx in Hin. lia.
  - cbn [take]. destruct Hin as [-> | Hin]; [now left|]. right. now apply IH.
Qed.

(** On a queue in priority order the job [find] returns weighs at least
    as much as every eligible job, and no eligible job stands before it. *)
Lemma find_highest_first now q j :
  byPriority q -> List.find (eligible now) q = Some j ->
  Forall (fun k => eligible now k = true ->
                   priorityOrder (priority k) <= priorityOrder (priority j)) q /\
  exists l1 l2, q = l1 ++ j :: l2 /\ Forall (fun k => eligible now k = false) l1.
Proof.
  induction q as [|x q IH]; [discriminate|]. intros [Hx Hq]. cbn [List.find].
  destruct (eligible now x) eqn:Hel.
  - intros [= <-]. split.
    + constructor; [lia|]. eapply Forall_impl; [exact Hx|]. cbn. auto.
    + exists [], q. now split.
  - intros Hfind. destruct (IH Hq Hfind) as (Hmax & l1 & l2 & -> & Hl1). split.
    + constructor; [congruence|assumption].
    + exists (x :: l1), l2. split; [reflexivity|now constructor].
Qed.

(** X1. While the queue is in priority order, a running executor with an
    eligible job selects one: an eligible pending job, of the greatest
    weight among the eligible jobs, and the first of them in the queue. *)
Theorem ordered_dequeue_is_highest_first (now : Z) (st : State) (k : QueueJob) :
  byPriority (queue st) -> isProcessing st = true ->
  In k (queue st) -> eligible now k = true ->
  exists j l1 l2,
    selectNext now st = Some j /\ eligible now j = true /\
    priorityOrder (priority k) <= priorityOrder (priority j) /\
    queue st = l1 ++ j :: l2 /\ Forall (fun x => eligible now x = false) l1.
Proof.
  intros Hord Hrun Hin Hel. unfold selectNext. rewrite Hrun.
  destruct (queue st) as [|x q] eqn:Hq; [contradiction|].
  cbn [negb orb length Nat.eqb].
  destruct (List.find (eligible now) (x :: q)) as [j|] eqn:Hfind.
  - destruct (find_highest_first now (x :: q) j Hord Hfind) as (Hmax & l1 & l2 & E & Hl1).
    exists j, l1, l2. split; [reflexivity|].
    split; [now apply find_some in Hfind|].
    split; [|now split].
    rewrite Forall_forall in Hmax. now apply Hmax; [apply list_elem_of_In|].
  - exfalso. eapply find_none in Hfind; [|exact Hin]. congruence.
Qed.

Lemma ordered_dequeue_is_highest_first_witness :
  map (fun x => (id x, priority x, eligible 2000 x)) (queue Scenario.tiers)
    = [("job-1", high, false); ("job-3", medium, true); ("job-2", low, true)] /\
  option_map id (selectNext 2000 Scenario.tiers) = Some "job-3" /\
  exists j l1 l2,
    selectNext 2000 Scenario.tiers = Some j /\ eligible 2000 j = true /\
    priorityOrder (priority (newJob "job-2" 1 "backup" Scenario.backup))
      <= priorityOrder (priority j) /\
    queue Scenario.tiers = l1 ++ j :: l2 /\
    Forall (fun x => eligible 2000 x = false) l1.
Proof.
  split; [vm_compute; reflexivity|]. split; [vm_compute; reflexivity|].
  apply (ordered_dequeue_is_highest_first 2000 Scenario.tiers
           (newJob "job-2" 1 "backup" Scenario.backup)).
  - let q := eval vm_compute in (queue Scenario.tiers) in
    change (queue Scenario.tiers) with q.
    cbn [byPriority].
    repeat match goal with
           | |- _ /\ _ => split
           | |- Forall _ _ => constructor
           | |- True => exact I
           end; cbn [priority priorityOrder]; lia.
  - reflexivity.
  - apply In_by_decide. vm_compute. reflexivity.
  - reflexivity.
Defined.

(** C1. The code departs from the claim once a retention pass has had to
    cut the queue: the pass leaves the array sorted newest first.  After
    the burst and one completed cycle the queue holds a pending posting
    job of priority high and the backups enqueued after it; the next
    selection takes the newest backup, of priority low, before the
    posting job and before every backup enqueued earlier. *)
Theorem dequeue_after_trim_is_newest_first :
  exists st,
    run Scenario.burstThenOneCycle initial = Some st /\
    let urgent := newJob (Scenario.jobId 3) 3 "main-posting" Scenario.posting in
    let first := newJob (Scenario.jobId 4) 4 "backup" Scenario.backup in
    let last := newJob (Scenario.jobId 102) 102 "backup" Scenario.backup in
    length (queue st) = 100%nat /\
    In urgent (queue st) /\ eligible 30103 urgent = true /\
    In first (queue st) /\ eligible 30103 first = true /\
    selectNext 30103 st = Some last /\
    priorityOrder (priority last) < priorityOrder (priority urgent) /\
    priority last = priority first /\ createdAt first < createdAt last.
Proof.
  eexists. split; [vm_compute; reflexivity|]. cbn zeta.
  split; [vm_compute; reflexivity|].
  split; [apply In_by_decide; vm_compute; reflexivity|].
  split; [reflexivity|].
  split; [apply In_by_decide; vm_compute; reflexivity|].
  split; [reflexivity|].
  split; [vm_compute; reflexivity|].
  repeat split.
Qed.

(** ** Overlapping wakes *)


Lemma countStatus_cons s j q :
  countStatus s (j :: q) =
    ((if status_eqb (status j) s then 1 else 0) + countStatus s q)%nat.
Proof. unfold countStatus. simpl. now destruct (status_eqb (status j) s). Qed.




Lemma status_eqb_true a b : status_eqb a b = true <-> a = b.
Proof. unfold status_eqb. apply bool_decide_eq_true. Qed.

Lemma status_eqb_false a b : a <> b -> status_eqb a b = false.
Proof. unfold status_eqb. apply bool_decide_eq_false. Qed.

Lemma countStatus_quiet q : quiet q -> countStatus processing q = 0%nat.
Proof.
  induction 1 as [|j q Hj _ IH]; [reflexivity|].
  rewrite countStatus_cons, IH, status_eqb_false by assumption. reflexivity.
Qed.

Lemma eligible_pending now j : eligible now j = true -> status j = pending.
Proof.
  unfold eligible. intros H. apply andb_true_iff in H as [H _].
  now apply status_eqb_true.
Qed.

Lemma markNext_owned now q j :
  quiet q -> List.find (eligible now) q = Some j ->
  countStatus processing (markNext now q) = 1%nat /\
  owned (startJob j) (markNext now q).
Proof.
  induction 1 as [|x q Hx Hq IH]; [discriminate|]. simpl.
  destruct (eligible now x) eqn:Hel.
  - intros [= <-]. split.
    + rewrite countStatus_cons, countStatus_quiet by assumption. reflexivity.
    + constructor; [reflexivity|].
      eapply Forall_impl; [exact Hq|]. intros k Hk Hp. contradiction.
  - intros Hfind. destruct (IH Hfind) as [Hc Ho]. split.
    + rewrite countStatus_cons, Hc, status_eqb_false by assumption. reflexivity.
    + constructor; [|assumption]. intros Hp. contradiction.
Qed.

Lemma settle_not_processing now res j : status (settle now res j) <> processing.
Proof.
  unfold settle. destruct (successful res); [discriminate|].
  failure_shape now (errorOrUnknown (resp_error res)) j; discriminate.
Qed.

Lemma In_executeJob now c job q x :
  In x (snd (executeJob now c job q)) -> In x q.
Proof.
  unfold executeJob, executeCleanupJob.
  repeat (match goal with |- context [if ?b then _ else _] => destruct b end);
    cbn [snd]; trivial.
  intros H. apply filter_In in H. tauto.
Qed.

(** Once the handler of the only awaited job has answered, no job is
    processing. *)
Lemma resume_quiet now c k st :
  owned k (queue st) -> quiet (queue (resume now c k st)).
Proof.
  intros Ho. unfold resume.
  pose proof (In_executeJob now c k (queue st)) as Hsub.
  destruct (executeJob now c k (queue st)) as [res q1]. cbn [snd] in Hsub.
  cbn [with_queue queue]. apply Forall_forall. intros x Hx.
  apply list_elem_of_In, In_retain in Hx.
  unfold writeBack in Hx. apply in_map_iff in Hx as (y & Hy & Hin).
  rewrite settle_id in Hy.
  destruct (String.eqb_spec (id y) (id k)) as [Heq|Hne]; subst x.
  - apply settle_not_processing.
  - intros Hp. apply Hne.
    unfold owned in Ho. rewrite Forall_forall in Ho.
    apply Ho; [|assumption]. now apply list_elem_of_In, Hsub.
Qed.







(** A wake does not look at the handlers that are awaited. *)
Lemma selectNext_ignores_inflight now q r i n fl :
  selectNext now (mkState q r i n fl) = selectNext now (mkState q r i n []).
Proof. reflexivity. Qed.



(** ** Counts, lookup and cancellation *)

(** X3. The four counts of [getQueueStatus] add up to its total: every
    job is counted under exactly one status. *)
Theorem queue_counts_add_up (st : State) :
  let s := getQueueStatus st in
  totalJobs s = (pendingJobs s + processingJobs s + completedJobs s + failedJobs s)%nat.
Proof.
  cbn zeta. unfold getQueueStatus.
  cbn [totalJobs pendingJobs processingJobs completedJobs failedJobs].
  induction (queue st) as [|j q IH]; [reflexivity|].
  rewrite !countStatus_cons. cbn [length]. rewrite IH.
  unfold status_eqb. destruct (status j);
    repeat case_bool_decide; try congruence; lia.
Qed.

Lemma getJob_splice_fresh newId i job q :
  id job = newId -> ~ In newId (map id q) ->
  getJob newId (splice i job q) = Some job.
Proof.
  intros Hid Hfresh. unfold getJob, splice.
  assert (forall l, (forall x, In x l -> In x q) ->
            forall rest, List.find (fun j => String.eqb (id j) newId) (l ++ rest)
                         = List.find (fun j => String.eqb (id j) newId) rest) as Hskip.
  { induction l as [|x l IH]; intros Hsub rest; [reflexivity|]. cbn.
    destruct (String.eqb_spec (id x) newId) as [E|_].
    - exfalso. apply Hfresh. rewrite <- E. apply in_map. apply Hsub. now left.
    - apply IH. intros y Hy. apply Hsub. now right. }
  rewrite Hskip by (intros x; apply In_take_weaken).
  cbn. now rewrite Hid, String.eqb_refl.
Qed.

Lemma getJob_splice_other jobId i job q :
  id job <> jobId -> getJob jobId (splice i job q) = getJob jobId q.
Proof.
  intros Hne. unfold getJob, splice. rewrite <- (take_drop i q) at 3.
  induction (take i q) as [|x l IH]; cbn.
  - destruct (String.eqb_spec (id job) jobId); [contradiction|reflexivity].
  - destruct (String.eqb (id x) jobId); [reflexivity|exact IH].
Qed.

(** X4. After [addJob] with an id that no resident job has, [getJob] of
    that id returns the job just created, and [getJob] of any other id
    returns what it returned before. *)
Theorem getJob_after_addJob (newId : string) (now : Z) (ty : string)
    (jd : JobData) (st : State) (other : string) :
  ~ In newId (map id (queue st)) -> other <> newId ->
  getJob newId (queue (fst (addJob newId now ty jd st)))
    = Some (newJob newId now ty jd) /\
  getJob other (queue (fst (addJob newId now ty jd st))) = getJob other (queue st).
Proof.
  intros Hfresh Hne. unfold addJob. cbn [fst queue]. split.
  - now apply getJob_splice_fresh.
  - apply getJob_splice_other. cbn. congruence.
Qed.

Lemma getJob_after_addJob_witness :
  getJob "job-2" (queue (fst (addJob "job-2" 7 "backup" Scenario.backup Scenario.oneJob)))
    = Some (newJob "job-2" 7 "backup" Scenario.backup) /\
  getJob "job-1" (queue (fst (addJob "job-2" 7 "backup" Scenario.backup Scenario.oneJob)))
    = getJob "job-1" (queue Scenario.oneJob).
Proof.
  apply (getJob_after_addJob "job-2" 7 "backup" Scenario.backup Scenario.oneJob "job-1").
  - vm_compute. intros [H|[]]. discriminate.
  - discriminate.
Defined.

Lemma filter_splice_fresh newId i job q :
  id job = newId -> ~ In newId (map id q) ->
  List.filter (otherThan newId) (splice i job q) = q.
Proof.
  intros Hid Hfresh. unfold splice. rewrite List.filter_app. cbn [List.filter].
  unfold otherThan at 2. rewrite Hid, String.eqb_refl. cbn [negb].
  rewrite <- List.filter_app, take_drop. now apply filter_absent.
Qed.

(** X5. Cancelling a job right after it was enqueued under a fresh id
    succeeds and gives back the queue as it was before the enqueue, in
    the same order. *)
Theorem cancelJob_undoes_addJob (newId : string) (now : Z) (ty : string)
    (jd : JobData) (st : State) :
  ~ In newId (map id (queue st)) ->
  successful (snd (cancelJob newId (fst (addJob newId now ty jd st)))) = true /\
  queue (fst (cancelJob newId (fst (addJob newId now ty jd st)))) = queue st.
Proof.
  intros Hfresh.
  assert (getJob newId (queue (fst (addJob newId now ty jd st)))
          = Some (newJob newId now ty jd)) as Hget.
  { unfold addJob. cbn [fst queue]. now apply getJob_splice_fresh. }
  rewrite (cancelJob_pending _ _ _ Hget eq_refl). cbn [fst snd with_queue queue].
  split; [reflexivity|]. unfold addJob. cbn [fst queue].
  now apply filter_splice_fresh.
Qed.

Lemma cancelJob_undoes_addJob_witness :
  queue (fst (cancelJob "job-2"
                (fst (addJob "job-2" 7 "backup" Scenario.backup Scenario.oneJob))))
  = queue Scenario.oneJob.
Proof.
  apply (cancelJob_undoes_addJob "job-2" 7 "backup" Scenario.backup Scenario.oneJob).
  vm_compute. intros [H|[]]. discriminate.
Defined.

(** ** Recency *)

Lemma Forall_insertByRecency (P : QueueJob -> Prop) x l :
  P x -> Forall P l -> Forall P (insertByRecency x l).
Proof.
  intros Hx Hl. apply Forall_forall. intros y Hy.
  apply list_elem_of_In, In_insertByRecency in Hy as [-> | Hy]; [assumption|].
  rewrite Forall_forall in Hl. now apply Hl, list_elem_of_In.
Qed.

Lemma insertByRecency_newestFirst x l :
  newestFirst l -> newestFirst (insertByRecency x l).
Proof.
  induction l as [|y l IH]; [intros _; now split|].
  intros [Hy Hl]. cbn [insertByRecency].
  destruct (Z.ltb_spec (createdAt x) (createdAt y)) as [H|H].
  - split; [|now apply IH]. apply Forall_insertByRecency; [lia|assumption].
  - split; [|now split]. constructor; [assumption|].
    eapply Forall_impl; [exact Hy|]. cbn. intros; lia.
Qed.

Lemma sortByRecency_newestFirst l : newestFirst (sortByRecency l).
Proof.
  induction l as [|x l IH]; [exact I|]. now apply insertByRecency_newestFirst.
Qed.

Lemma length_insertByRecency x l : length (insertByRecency x l) = S (length l).
Proof.
  induction l as [|y l IH]; [reflexivity|]. cbn [insertByRecency].
  destruct (createdAt x <? createdAt y); cbn [length]; congruence.
Qed.

Lemma length_sortByRecency l : length (sortByRecency l) = length l.
Proof.
  induction l as [|x l IH]; [reflexivity|]. cbn [sortByRecency fold_right].
  rewrite length_insertByRecency. cbn [length]. now f_equal.
Qed.

Lemma newestFirst_take n l : newestFirst l -> newestFirst (take n l).
Proof.
  revert n. induction l as [|x l IH]; intros [|n]; try (intros _; exact I).
  intros [Hx Hl]. cbn [take newestFirst]. split; [|now apply IH].
  now apply Forall_take.
Qed.

Lemma newestFirst_split l1 l2 x y :
  newestFirst (l1 ++ l2) -> In x l1 -> In y l2 -> createdAt y <= createdAt x.
Proof.
  induction l1 as [|z l1 IH]; [contradiction|]. cbn [app newestFirst].
  intros [Hz Hrest] [-> | Hx] Hy.
  - rewrite Forall_forall in Hz. apply Hz, list_elem_of_In, in_or_app. now right.
  - now apply IH.
Qed.

(** X6. [getRecentJobs] returns at most [limit] jobs, as many as the
    queue has if that is fewer, all of them jobs of the queue, running
    from the newest to the oldest. *)
Theorem getRecentJobs_newest_first (limit : nat) (q : list QueueJob) :
  length (getRecentJobs limit q) = Nat.min limit (length q) /\
  newestFirst (getRecentJobs limit q) /\
  (forall x, In x (getRecentJobs limit q) -> In x q) /\
  (forall x y, In x (getRecentJobs limit q) -> In y q ->
               ~ In y (getRecentJobs limit q) -> createdAt y <= createdAt x).
Proof.
  unfold getRecentJobs. split; [|split; [|split]].
  - now rewrite length_take, length_sortByRecency.
  - apply newestFirst_take, sortByRecency_newestFirst.
  - intros x Hx. apply In_take_weaken in Hx. now apply In_sortByRecency.
  - intros x y Hx Hy Hout.
    apply (newestFirst_split (take limit (sortByRecency q))
                             (drop limit (sortByRecency q))); [|assumption|].
    + rewrite take_drop. apply sortByRecency_newestFirst.
    + apply In_sortByRecency in Hy. rewrite <- (take_drop limit) in Hy.
      apply in_app_or in Hy as [Hy|Hy]; [contradiction|assumption].
Qed.

(** X7. Whatever a retention pass drops among the jobs that passed its
    filter is no newer than anything it keeps: when the pass has to cut,
    it cuts the oldest. *)
Theorem retention_cuts_the_oldest (now : Z) (q : list QueueJob) (x y : QueueJob) :
  In x (cleanupOldJobs now q) -> In y q -> keepJob now y = true ->
  ~ In y (cleanupOldJobs now q) ->
  createdAt y <= createdAt x.
Proof.
  unfold cleanupOldJobs. destruct (Nat.leb (length q) maxJobs); [contradiction|].
  cbn zeta. intros Hx Hy Hkeep Hout.
  assert (In y (List.filter (keepJob now) q)) as Hk
    by (apply filter_In; split; assumption).
  destruct (Nat.ltb maxJobs (length (List.filter (keepJob now) q)));
    [|contradiction].
  set (kept := List.filter (keepJob now) q) in *.
  apply (newestFirst_split (take maxJobs (sortByRecency kept))
                           (drop maxJobs (sortByRecency kept))); [|assumption|].
  - rewrite take_drop. apply sortByRecency_newestFirst.
  - apply In_sortByRecency in Hk. rewrite <- (take_drop maxJobs) in Hk.
    apply in_app_or in Hk as [Hk|Hk]; [contradiction|assumption].
Qed.

Lemma retention_cuts_the_oldest_witness :
  createdAt (newJob (Scenario.jobId 2) 2 "main-posting" Scenario.posting)
  <= createdAt (newJob (Scenario.jobId 3) 3 "main-posting" Scenario.posting).
Proof.
  apply (retention_cuts_the_oldest 104 Scenario.beforePass).
  - apply In_by_decide. vm_compute. reflexivity.
  - apply In_by_decide. vm_compute. reflexivity.
  - reflexivity.
  - apply not_In_by_decide. vm_compute. reflexivity.
Defined.

(** ** Selection *)

(** X8. The job a wake selects is a pending job of the queue whose
    [nextRetry], if it has one, has come, and no job before it in the
    queue is eligible; the wake starts that job in place and touches no
    other.  A stopped manager selects nothing. *)
Theorem wake_starts_a_due_job (now : Z) (st : State) (j : QueueJob) :
  selectNext now st = Some j ->
  isProcessing st = true /\ status j = pending /\
  match nextRetry j with
  | Some t => t <= now
  | None => True
  end /\
  exists l1 l2,
    queue st = l1 ++ j :: l2 /\
    queue (wake now st) = l1 ++ startJob j :: l2 /\
    Forall (fun x => eligible now x = false) l1.
Proof.
  intros Hsel. unfold wake. rewrite Hsel. cbn [queue].
  unfold selectNext in Hsel.
  destruct (isProcessing st); [|discriminate]. cbn [negb orb] in Hsel.
  destruct (Nat.eqb (length (queue st)) 0); [discriminate|].
  split; [reflexivity|].
  pose proof (find_some _ _ Hsel) as [_ Hel].
  split; [now apply eligible_pending in Hel|]. split.
  - unfold eligible in Hel. apply andb_true_iff in Hel as [_ Hel].
    destruct (nextRetry j); [lia|exact I].
  - now apply markNext_split.
Qed.

Lemma wake_starts_a_due_job_witness :
  let j := newJob "job-3" 2 "health-check" Scenario.probe in
  map id (queue Scenario.tiers) = ["job-1"; "job-3"; "job-2"] /\
  isProcessing Scenario.tiers = true /\ status j = pending /\
  match nextRetry j with
  | Some t => t <= 2000
  | None => True
  end /\
  exists l1 l2,
    queue Scenario.tiers = l1 ++ j :: l2 /\
    queue (wake 2000 Scenario.tiers) = l1 ++ startJob j :: l2 /\
    Forall (fun x => eligible 2000 x = false) l1.
Proof.
  cbn zeta. split; [vm_compute; reflexivity|].
  exact (wake_starts_a_due_job 2000 Scenario.tiers
           (newJob "job-3" 2 "health-check" Scenario.probe)
           ltac:(vm_compute; reflexivity)).
Defined.

(** X9. A second [start] changes nothing and does not wake the executor.
    After [stop] the queue and the awaited handlers are as they were, the
    interval no longer ticks and a wake that was already queued selects
    nothing. *)
Theorem start_twice_stop_quiesces (t1 t2 now : Z) (st : State) :
  start t2 (fst (start t1 st)) =
    (fst (start t1 st),
     createApiResponse true "Queue manager already running" (Some true) None) /\
  queue (fst (stop st)) = queue st /\
  inflight (fst (stop st)) = inflight st /\
  step (ETick now) (fst (stop st)) = None /\
  wake now (fst (stop st)) = fst (stop st).
Proof.
  split.
  - assert (isProcessing (fst (start t1 st)) = true) as Hrun.
    { unfold start. destruct (isProcessing st) eqn:E; [exact E|].
      cbn [fst]. unfold wake.
      destruct (selectNext t1 _); reflexivity. }
    unfold start at 1. now rewrite Hrun.
  - repeat split.
Qed.

Lemma quiet_countStatus q : countStatus processing q = 0%nat -> quiet q.
Proof.
  induction q as [|j q IH]; [constructor|]. rewrite countStatus_cons.
  unfold status_eqb. case_bool_decide as Hs; [lia|].
  intros Hc. constructor; [assumption|]. apply IH. lia.
Qed.

(** X10. A whole call of [processQueue] whose handler answers before
    anything else happens leaves no job processing, if none was before. *)
Theorem cycle_leaves_none_processing (now : Z) (c : Collab) (st : State) :
  processingJobs (getQueueStatus st) = 0%nat ->
  processingJobs (getQueueStatus (processQueue now c st)) = 0%nat.
Proof.
  unfold getQueueStatus. cbn [processingJobs]. intros Hq.
  unfold processQueue. destruct (selectNext now st) as [j|] eqn:Hsel; [|exact Hq].
  cbn [dropInflight queue]. apply countStatus_quiet, resume_quiet.
  apply quiet_countStatus in Hq.
  unfold wake. rewrite Hsel. cbn [queue].
  unfold selectNext in Hsel.
  destruct (negb (isProcessing st) || Nat.eqb (length (queue st)) 0); [discriminate|].
  now apply markNext_owned.
Qed.

Lemma cycle_leaves_none_processing_witness :
  processingJobs (getQueueStatus (processQueue 5 (Thrown "boom") Scenario.oneJob)) = 0%nat.
Proof.
  exact (cycle_leaves_none_processing 5 (Thrown "boom") Scenario.oneJob eq_refl).
Defined.

(** ** Attempts *)

Lemma startJob_withinAllowance now j :
  eligible now j = true -> withinAllowance j -> withinAllowance (startJob j).
Proof.
  intros Hel (Hrange & Hpend & _). apply eligible_pending in Hel.
  specialize (Hpend Hel). unfold withinAllowance. cbn.
  split; [lia|]. split; discriminate.
Qed.

Lemma settle_withinAllowance now res k :
  withinAllowance k -> withinAllowance (settle now res k).
Proof.
  intros (Hrange & _ & _). unfold settle.
  destruct (successful res).
  - unfold withinAllowance. cbn. split; [assumption|]. split; discriminate.
  - failure_shape now (errorOrUnknown (resp_error res)) k;
      unfold withinAllowance; cbn.
    + split; [assumption|]. split; [discriminate|]. intros _. lia.
    + split; [assumption|]. split; [intros _; now right|discriminate].
    + split; [assumption|]. split; [intros _; now right|discriminate].
Qed.

Lemma markNext_withinAllowance now q :
  Forall withinAllowance q -> Forall withinAllowance (markNext now q).
Proof.
  induction 1 as [|x q Hx Hq IH]; [constructor|]. cbn [markNext].
  destruct (eligible now x) eqn:Hel.
  - constructor; [now apply (startJob_withinAllowance now)|assumption].
  - now constructor.
Qed.

Lemma Forall_subset (P : QueueJob -> Prop) (l l' : list QueueJob) :
  (forall x, In x l' -> In x l) -> Forall P l -> Forall P l'.
Proof.
  intros Hsub Hl. apply Forall_forall. intros x Hx.
  rewrite Forall_forall in Hl. now apply Hl, list_elem_of_In, Hsub, list_elem_of_In.
Qed.

Lemma wake_withinAllowance now st :
  allWithinAllowance st -> allWithinAllowance (wake now st).
Proof.
  intros [Hq Hf]. unfold wake.
  destruct (selectNext now st) as [j|] eqn:Hsel; [|now split].
  split; cbn [queue inflight]; [now apply markNext_withinAllowance|].
  constructor; [|assumption].
  unfold selectNext in Hsel.
  destruct (negb (isProcessing st) || Nat.eqb (length (queue st)) 0); [discriminate|].
  apply find_some in Hsel as [Hin Hel].
  apply (startJob_withinAllowance now); [assumption|].
  rewrite Forall_forall in Hq. now apply Hq, list_elem_of_In.
Qed.

Lemma resume_withinAllowance now c k st :
  withinAllowance k -> Forall withinAllowance (queue st) ->
  Forall withinAllowance (queue (resume now c k st)).
Proof.
  intros Hk Hq. unfold resume.
  pose proof (In_executeJob now c k (queue st)) as Hsub.
  destruct (executeJob now c k (queue st)) as [res q1]. cbn [snd] in Hsub.
  cbn [with_queue queue].
  apply (Forall_subset _ (writeBack (settle now res k) q1));
    [intros x; apply In_retain|].
  unfold writeBack. apply Forall_forall. intros x Hx.
  apply list_elem_of_In, in_map_iff in Hx as (y & <- & Hy).
  destruct (String.eqb (id y) (id (settle now res k))).
  - now apply settle_withinAllowance.
  - rewrite Forall_forall in Hq. now apply Hq, list_elem_of_In, Hsub.
Qed.

Lemma step_withinAllowance e st st' :
  allWithinAllowance st -> step e st = Some st' -> allWithinAllowance st'.
Proof.
  intros Hinv Hstep.
  destruct e as [now| |newId now ty jd|jobId|now|now|jobId now c]; cbn [step] in Hstep.
  - injection Hstep as <-. unfold start. destruct (isProcessing st); [exact Hinv|].
    cbn [fst]. apply wake_withinAllowance. exact Hinv.
  - injection Hstep as <-. exact Hinv.
  - injection Hstep as <-. destruct Hinv as [Hq Hf]. split; [|exact Hf].
    unfold addJob. cbn [fst queue]. apply Forall_forall. intros x Hx.
    apply list_elem_of_In, In_splice in Hx as [-> | Hx].
    + unfold withinAllowance. cbn. split; [lia|]. split; [now left|discriminate].
    + rewrite Forall_forall in Hq. now apply Hq, list_elem_of_In.
  - injection Hstep as <-. destruct Hinv as [Hq Hf]. unfold cancelJob.
    destruct (getJob jobId (queue st)); [|now split].
    destruct (status_eqb _ _); [now split|]. destruct (finished _); [now split|].
    split; [|exact Hf]. cbn [fst with_queue queue].
    apply (Forall_subset _ (queue st)); [|assumption].
    intros x Hx. now apply filter_In in Hx.
  - destruct (processingInterval st); [|discriminate]. injection Hstep as <-.
    now apply wake_withinAllowance.
  - destruct (immediates st); [discriminate|]. injection Hstep as <-.
    now apply wake_withinAllowance.
  - destruct (List.find _ (inflight st)) as [k|] eqn:Hfind; [|discriminate].
    injection Hstep as <-. destruct Hinv as [Hq Hf].
    apply find_some in Hfind as [Hin _].
    assert (withinAllowance k) as Hk
      by (rewrite Forall_forall in Hf; now apply Hf, list_elem_of_In).
    split; cbn [dropInflight queue inflight].
    + now apply resume_withinAllowance.
    + replace (inflight (resume now c k st)) with (inflight st)
        by (unfold resume; destruct (executeJob now c k (queue st)); now cbn).
      apply (Forall_subset _ (inflight st)); [|assumption].
      intros x Hx. now apply filter_In in Hx.
Qed.

(** X11. In every state reached by any interleaving of calls, wakes and
    handler answers, each job of the queue has made at most
    [max 1 maxAttempts] attempts; a pending job has attempts to spare
    unless it has made none, and a failed job has used all of its
    own. *)
Theorem attempts_stay_within_allowance (es : list Event) (st : State) (j : QueueJob) :
  run es initial = Some st -> In j (queue st) ->
  0 <= attempts j <= Z.max 1 (maxAttempts j) /\
  (status j = pending -> attempts j = 0 \/ attempts j < maxAttempts j) /\
  (status j = failed -> maxAttempts j <= attempts j).
Proof.
  intros Hrun Hin.
  assert (allWithinAllowance st) as [Hq _].
  { assert (allWithinAllowance initial) as H0 by (split; constructor).
    revert Hrun H0. generalize initial. induction es as [|e es IH]; intros s0 Hrun H0.
    - injection Hrun as <-. exact H0.
    - cbn [run] in Hrun. destruct (step e s0) as [s1|] eqn:Hstep; [|discriminate].
      apply (IH s1 Hrun). now apply (step_withinAllowance e s0). }
  rewrite Forall_forall in Hq. now apply Hq, list_elem_of_In.
Qed.

Lemma attempts_stay_within_allowance_witness :
  let j := set_status completed
             (startJob (newJob (Scenario.jobId 1) 1 "main-posting" Scenario.posting)) in
  0 <= attempts j <= Z.max 1 (maxAttempts j) /\
  (status j = pending -> attempts j = 0 \/ attempts j < maxAttempts j) /\
  (status j = failed -> maxAttempts j <= attempts j).
Proof.
  apply (attempts_stay_within_allowance Scenario.inTurn Scenario.inTurnEnd).
  - vm_compute. reflexivity.
  - apply In_by_decide. vm_compute. reflexivity.
Defined.

(** ** Priority order across operations *)

Lemma byPriority_filter f q : byPriority q -> byPriority (List.filter f q).
Proof.
  induction q as [|x q IH]; [trivial|]. intros [Hx Hq]. cbn [List.filter].
  destruct (f x); [|now apply IH]. split; [|now apply IH].
  apply Forall_forall. intros y Hy. apply list_elem_of_In, filter_In in Hy as [Hy _].
  rewrite Forall_forall in Hx. now apply Hx, list_elem_of_In.
Qed.

Lemma byPriority_samePriorities q q' :
  samePriorities q q' -> byPriority q -> byPriority q'.
Proof.
  induction 1 as [|a b q q' Hab Hrest IH]; [trivial|]. intros [Ha Hq].
  split; [|now apply IH]. rewrite <- Hab. clear IH Hq.
  induction Hrest as [|c d q q' Hcd Hrest IH]; [constructor|].
  apply Forall_cons in Ha as [Hc Ha]. constructor; [congruence|now apply IH].
Qed.

Lemma samePriorities_refl q : samePriorities q q.
Proof. induction q; now constructor. Qed.

Lemma markNext_samePriorities now q : samePriorities q (markNext now q).
Proof.
  induction q as [|x q IH]; [constructor|]. cbn [markNext].
  destruct (eligible now x).
  - constructor; [reflexivity|apply samePriorities_refl].
  - now constructor.
Qed.

Lemma settle_priority now res j : priority (settle now res j) = priority j.
Proof.
  unfold settle. destruct (successful res); [reflexivity|].
  failure_shape now (errorOrUnknown (resp_error res)) j; reflexivity.
Qed.

Lemma writeBack_samePriorities job' q :
  (forall y, In y q -> id y = id job' -> priority y = priority job') ->
  samePriorities q (writeBack job' q).
Proof.
  induction q as [|x q IH]; [constructor|]. intros Hsame. cbn [writeBack map].
  constructor.
  - destruct (String.eqb_spec (id x) (id job')) as [E|_]; [|reflexivity].
    apply Hsame; [now left|assumption].
  - apply IH. intros y Hy. apply Hsame. now right.
Qed.

Lemma same_id_same_job (q : list QueueJob) x y :
  NoDup (map id q) -> In x q -> In y q -> id x = id y -> x = y.
Proof.
  induction q as [|z q IH]; [contradiction|]. cbn [map].
  intros Hnd Hx Hy E. apply NoDup_cons in Hnd as [Hz Hnd].
  assert (forall w, In w q -> id w <> id z) as Hfresh.
  { intros w Hw Ew. apply Hz. rewrite <- Ew. now apply list_elem_of_In, in_map. }
  destruct Hx as [-> | Hx], Hy as [-> | Hy]; [reflexivity| | |now apply IH].
  - exfalso. now apply (Hfresh y).
  - exfalso. now apply (Hfresh x).
Qed.

Lemma executeJob_order now c job q :
  byPriority q ->
  byPriority (snd (executeJob now c job q)) /\
  (length (snd (executeJob now c job q)) <= length q)%nat.
Proof.
  intros Hq. unfold executeJob, executeCleanupJob.
  repeat (match goal with |- context [if ?b then _ else _] => destruct b end);
    cbn [snd]; try (split; [assumption|lia]).
  split; [now apply byPriority_filter|apply filter_length_le].
Qed.

Lemma cancelJob_byPriority jobId st :
  byPriority (queue st) -> byPriority (queue (fst (cancelJob jobId st))).
Proof.
  intros Hq. unfold cancelJob. destruct (getJob jobId (queue st)); [|assumption].
  destruct (status_eqb _ _); [assumption|]. destruct (finished _); [assumption|].
  cbn [fst with_queue queue]. now apply byPriority_filter.
Qed.

(** X12. While the queue holds at most 100 jobs, with distinct ids,
    [addJob], [cancelJob] and a whole call of [processQueue] each leave
    it in priority order if they find it so. *)
Theorem priority_order_is_kept (now : Z) (c : Collab) (st : State)
    (newId ty jobId : string) (t : Z) (jd : JobData) :
  byPriority (queue st) -> NoDup (map id (queue st)) ->
  (length (queue st) <= 100)%nat ->
  byPriority (queue (fst (addJob newId t ty jd st))) /\
  byPriority (queue (fst (cancelJob jobId st))) /\
  byPriority (queue (processQueue now c st)).
Proof.
  intros Hord Hnd Hlen.
  split; [now apply addJob_byPriority|]. split; [now apply cancelJob_byPriority|].
  unfold processQueue. destruct (selectNext now st) as [j|] eqn:Hsel; [|assumption].
  cbn [dropInflight queue]. unfold wake. rewrite Hsel. unfold resume. cbn [queue].
  unfold selectNext in Hsel.
  destruct (negb (isProcessing st) || Nat.eqb (length (queue st)) 0); [discriminate|].
  pose proof (markNext_samePriorities now (queue st)) as Hmark.
  pose proof (byPriority_samePriorities _ _ Hmark Hord) as Hord1.
  pose proof (executeJob_order now c (startJob j) _ Hord1) as [Hord2 Hlen2].
  pose proof (In_executeJob now c (startJob j) (markNext now (queue st))) as Hsub.
  destruct (executeJob now c (startJob j) (markNext now (queue st))) as [res q1].
  cbn [snd] in *. cbn [with_queue queue].
  rewrite retain_under_cap
    by (unfold writeBack, maxJobs; rewrite length_map;
        rewrite length_markNext in Hlen2; lia).
  apply (byPriority_samePriorities q1); [|assumption].
  apply writeBack_samePriorities. intros y Hy Hid.
  rewrite settle_id in Hid. rewrite settle_priority.
  apply Hsub in Hy.
  destruct (markNext_split now (queue st) j Hsel) as (l1 & l2 & Hq & Hm & _).
  rewrite Hm in Hy. apply in_app_or in Hy as [Hy | [<- | Hy]]; [|reflexivity|];
    change (priority (startJob j)) with (priority j);
    change (id (startJob j)) with (id j) in Hid.
  - f_equal. apply (same_id_same_job (queue st)); try assumption;
      rewrite Hq; apply in_or_app; [now left|right; now left].
  - f_equal. apply (same_id_same_job (queue st)); try assumption;
      rewrite Hq; apply in_or_app; right; [now right|now left].
Qed.

Lemma priority_order_is_kept_witness :
  map id (queue Scenario.tiers) = ["job-1"; "job-3"; "job-2"] /\
  byPriority (queue (fst (addJob "job-4" 7 "health-check" Scenario.probe Scenario.tiers))) /\
  byPriority (queue (fst (cancelJob "job-3" Scenario.tiers))) /\
  byPriority (queue (processQueue 2000 (Thrown "boom") Scenario.tiers)).
Proof.
  split; [vm_compute; reflexivity|].
  apply (priority_order_is_kept 2000 (Thrown "boom") Scenario.tiers
           "job-4" "health-check" "job-3" 7 Scenario.probe).
  - let q := eval vm_compute in (queue Scenario.tiers) in
    change (queue Scenario.tiers) with q.
    cbn [byPriority].
    repeat match goal with
           | |- _ /\ _ => split
           | |- Forall _ _ => constructor
           | |- True => exact I
           end; cbn [priority priorityOrder]; lia.
  - apply (bool_decide_unpack _). vm_compute. exact I.
  - vm_compute. lia.
Defined.

(** ** First in, first out within a tier *)

Lemma resident_before_position q p a :
  byPriority q -> In a q -> priorityOrder p <= priorityOrder (priority a) ->
  In a (take (findInsertPosition q p) q).
Proof.
  induction q as [|x q IH]; [contradiction|].
  intros [Hx Hq] Hin Hw. rewrite findInsertPosition_cons.
  destruct (Z.ltb_spec (priorityOrder (priority x)) (priorityOrder p)) as [H|H].
  - exfalso. destruct Hin as [-> | Hin]; [lia|].
    rewrite Forall_forall in Hx. apply list_elem_of_In, Hx in Hin. lia.
  - cbn [take]. destruct Hin as [-> | Hin]; [now left|]. right. now apply IH.
Qed.

Lemma find_in_prefix (f : QueueJob -> bool) l1 r a :
  In a l1 -> f a = true ->
  exists x, List.find f (l1 ++ r) = Some x /\ In x l1.
Proof.
  induction l1 as [|y l1 IH]; [contradiction|]. intros Hin Hf. cbn.
  destruct (f y) eqn:Hy.
  - exists y. split; [reflexivity|now left].
  - destruct Hin as [-> | Hin]; [congruence|].
    destruct (IH Hin Hf) as (x & Hx & Hx'). exists x. split; [assumption|now right].
Qed.

(** X13. Let job A and then job B be enqueued, under distinct fresh ids
    and with the same priority, on a queue in priority order.  A stands
    before B in the queue, and as long as the queue is as those two
    calls left it no wake selects B. *)
Theorem fifo_within_tier (st : State) (idA idB tyA tyB : string) (tA tB now : Z)
    (jdA jdB : JobData) :
  byPriority (queue st) -> ~ In idB (map id (queue st)) -> idA <> idB ->
  jd_priority jdA = jd_priority jdB ->
  let a := newJob idA tA tyA jdA in
  let b := newJob idB tB tyB jdB in
  let st2 := fst (addJob idB tB tyB jdB (fst (addJob idA tA tyA jdA st))) in
  (exists l1 l2, queue st2 = l1 ++ b :: l2 /\ In a l1) /\
  selectNext now st2 <> Some b.
Proof.
  intros Hord Hfresh Hne Hprio. cbn zeta.
  set (st1 := fst (addJob idA tA tyA jdA st)).
  set (a := newJob idA tA tyA jdA). set (b := newJob idB tB tyB jdB).
  assert (byPriority (queue st1)) as Hord1 by (now apply addJob_byPriority).
  assert (In a (queue st1)) as Ha
    by (unfold st1, addJob; cbn [fst queue]; apply In_splice; now left).
  assert (forall x, In x (queue st1) -> id x <> idB) as Hids.
  { intros x Hx E. unfold st1, addJob in Hx. cbn [fst queue] in Hx.
    apply In_splice in Hx as [-> | Hx]; [now apply Hne|].
    apply Hfresh. rewrite <- E. now apply in_map. }
  pose proof (resident_before_position (queue st1) (jd_priority jdB) a Hord1 Ha) as Hpre.
  assert (In a (take (findInsertPosition (queue st1) (jd_priority jdB)) (queue st1)))
    as Hin by (apply Hpre; cbn; rewrite Hprio; lia).
  assert (queue (fst (addJob idB tB tyB jdB st1))
          = take (findInsertPosition (queue st1) (jd_priority jdB)) (queue st1)
            ++ b :: drop (findInsertPosition (queue st1) (jd_priority jdB)) (queue st1))
    as Hq by reflexivity.
  split; [eexists _, _; split; [exact Hq|exact Hin]|].
  unfold selectNext. destruct (negb _ || _); [discriminate|]. rewrite Hq.
  destruct (find_in_prefix (eligible now) _
              (b :: drop (findInsertPosition (queue st1) (jd_priority jdB)) (queue st1))
              a Hin eq_refl) as (x & -> & Hx).
  intros [= ->]. apply In_take_weaken in Hx. now apply (Hids b).
Qed.

Lemma fifo_within_tier_witness :
  let a := newJob "job-2" 7 "backup" Scenario.backup in
  let b := newJob "job-3" 8 "backup" Scenario.backup in
  let st2 := fst (addJob "job-3" 8 "backup" Scenario.backup
                    (fst (addJob "job-2" 7 "backup" Scenario.backup Scenario.oneJob))) in
  (exists l1 l2, queue st2 = l1 ++ b :: l2 /\ In a l1) /\
  selectNext 9 st2 <> Some b.
Proof.
  apply (fifo_within_tier Scenario.oneJob "job-2" "job-3" "backup" "backup" 7 8 9
           Scenario.backup Scenario.backup).
  - vm_compute. split; constructor.
  - vm_compute. intros [H|[]]. discriminate.
  - discriminate.
  - reflexivity.
Defined.

(** ** The scheduler's timers *)

Lemma held_same_tables cs cs' :
  Cron.jobs cs' = Cron.jobs cs -> Cron.tasks cs' = Cron.tasks cs ->
  Cron.held cs -> Cron.held cs'.
Proof. unfold Cron.held. intros -> ->. trivial. Qed.

Lemma noTimer_same_tasks n cs cs' :
  Cron.tasks cs' = Cron.tasks cs -> Cron.noTimer n cs -> Cron.noTimer n cs'.
Proof. unfold Cron.noTimer. intros ->. trivial. Qed.

Lemma allStopped_noTimer n cs : Cron.allStopped cs -> Cron.noTimer n cs.
Proof.
  intros Hall t x Hx Hrun. unfold Cron.allStopped in Hall.
  rewrite Forall_forall in Hall. apply list_elem_of_lookup_2, Hall in Hx. congruence.
Qed.

Lemma allStopped_held cs : Cron.allStopped cs -> Cron.held cs.
Proof.
  intros Hall t x Hx Hrun. unfold Cron.allStopped in Hall.
  rewrite Forall_forall in Hall. apply list_elem_of_lookup_2, Hall in Hx. congruence.
Qed.

Lemma armTask_held n info cs :
  Cron.held cs -> Cron.noTimer n cs -> Cron.held (Cron.armTask n info cs).
Proof.
  intros Hheld Hno t x Hx Hrun. unfold Cron.armTask in *.
  cbn [Cron.tasks Cron.jobs] in *.
  apply lookup_snoc_Some in Hx as [[_ Hx] | [-> <-]].
  - destruct (Hheld t x Hx Hrun) as (info' & Hjob & Htask).
    exists info'. split; [|assumption].
    rewrite lookup_insert_ne; [assumption|]. intros E. now apply (Hno t x).
  - cbn [Cron.target]. rewrite lookup_insert_eq. eexists. split; reflexivity.
Qed.

Lemma armTask_noTimer n n' info cs :
  n <> n' -> Cron.noTimer n' cs -> Cron.noTimer n' (Cron.armTask n info cs).
Proof.
  intros Hne Hno t x Hx Hrun. unfold Cron.armTask in Hx. cbn [Cron.tasks] in Hx.
  apply lookup_snoc_Some in Hx as [[_ Hx] | [_ <-]]; [now apply (Hno t x)|].
  exact Hne.
Qed.

Lemma scheduleFixedJob_held n cs :
  Cron.held cs -> Cron.noTimer n cs -> Cron.held (Cron.scheduleFixedJob n cs).
Proof.
  intros Hheld Hno. unfold Cron.scheduleFixedJob.
  destruct (Cron.jobs cs !! n); [now apply armTask_held|assumption].
Qed.

Lemma scheduleFixedJob_noTimer n n' cs :
  n <> n' -> Cron.noTimer n' cs -> Cron.noTimer n' (Cron.scheduleFixedJob n cs).
Proof.
  intros Hne Hno. unfold Cron.scheduleFixedJob.
  destruct (Cron.jobs cs !! n); [now apply armTask_noTimer|assumption].
Qed.

Lemma scheduleMainJob_held validate runNow cs :
  Cron.held cs -> Cron.noTimer "main-posting" cs ->
  Cron.held (Cron.scheduleMainJob validate runNow cs).
Proof.
  intros Hheld Hno. unfold Cron.scheduleMainJob.
  destruct (Cron.jobs cs !! "main-posting") as [info|]; [|assumption].
  destruct (negb (validate (Cron.schedule info))).
  - destruct runNow; assumption.
  - apply armTask_held; destruct runNow; assumption.
Qed.

Lemma scheduleMainJob_noTimer validate runNow n' cs :
  "main-posting" <> n' -> Cron.noTimer n' cs ->
  Cron.noTimer n' (Cron.scheduleMainJob validate runNow cs).
Proof.
  intros Hne Hno. unfold Cron.scheduleMainJob.
  destruct (Cron.jobs cs !! "main-posting") as [info|]; [|assumption].
  destruct (negb (validate (Cron.schedule info))).
  - destruct runNow; assumption.
  - apply armTask_noTimer; [assumption|]. destruct runNow; assumption.
Qed.

Lemma start_tidy validate runNow cronSchedule cs :
  Cron.tidy cs -> Cron.tidy (fst (Cron.start validate runNow cronSchedule cs)).
Proof.
  intros [Hheld Hidle]. unfold Cron.start.
  destruct (Cron.isRunning cs) eqn:Hrun.
  { cbn [fst]. split; [assumption|]. rewrite Hrun. discriminate. }
  specialize (Hidle eq_refl). cbn [fst]. split; [|discriminate].
  set (cs0 := Cron.initializeJobs cronSchedule cs).
  assert (Cron.allStopped cs0) as Hall by exact Hidle.
  apply (held_same_tables (Cron.startAllJobs validate runNow cs0)); try reflexivity.
  unfold Cron.startAllJobs.
  apply scheduleFixedJob_held; [apply scheduleFixedJob_held;
    [apply scheduleFixedJob_held; [apply scheduleMainJob_held|]|]|].
  - now apply allStopped_held.
  - now apply allStopped_noTimer.
  - apply scheduleMainJob_noTimer; [discriminate|now apply allStopped_noTimer].
  - apply scheduleFixedJob_noTimer; [discriminate|].
    apply scheduleMainJob_noTimer; [discriminate|now apply allStopped_noTimer].
  - apply scheduleFixedJob_noTimer; [discriminate|].
    apply scheduleFixedJob_noTimer; [discriminate|].
    apply scheduleMainJob_noTimer; [discriminate|now apply allStopped_noTimer].
Qed.

Lemma stopped_or_untouched (hs : list nat) (ts : list Cron.ScheduledTask) t x :
  foldr (fun h acc => alter Cron.stopTask h acc) ts hs !! t = Some x ->
  Cron.running x = false \/ ((t ∉ hs) /\ ts !! t = Some x).
Proof.
  revert x. induction hs as [|h hs IH]; intros x Hx; cbn [foldr] in Hx.
  - right. split; [apply not_elem_of_nil|assumption].
  - destruct (decide (h = t)) as [->|Hne].
    + rewrite list_lookup_alter_eq in Hx.
      destruct (_ !! t) as [y|]; [|discriminate]. injection Hx as <-. now left.
    + rewrite list_lookup_alter_ne in Hx by assumption.
      destruct (IH x Hx) as [Hs | [Hout Hl]]; [now left|].
      right. split; [|assumption]. apply not_elem_of_cons. split; [congruence|assumption].
Qed.

Lemma stop_allStopped cs : Cron.held cs -> Cron.allStopped (fst (Cron.stop cs)).
Proof.
  intros Hheld. unfold Cron.allStopped, Cron.stop. cbn [fst Cron.tasks].
  apply Forall_forall. intros x Hx. apply list_elem_of_lookup_1 in Hx as [t Hx].
  destruct (Cron.running x) eqn:Hrun; [|reflexivity]. exfalso.
  apply stopped_or_untouched in Hx as [Hs | [Hout Hl]]; [congruence|].
  destruct (Hheld t x Hl Hrun) as (info & Hjob & Htask).
  apply Hout. apply list_elem_of_omap. exists info. split; [|assumption].
  apply list_elem_of_In, in_map_iff. exists (Cron.target x, info). split; [reflexivity|].
  now apply list_elem_of_In, elem_of_map_to_list.
Qed.

Lemma stop_tidy cs : Cron.tidy cs -> Cron.tidy (fst (Cron.stop cs)).
Proof.
  intros [Hheld _]. pose proof (stop_allStopped cs Hheld) as Hall.
  split; [now apply allStopped_held|trivial].
Qed.

Lemma update_held validate runNow newSchedule cs :
  Cron.held cs ->
  Cron.held (fst (Cron.updateMainSchedule validate runNow newSchedule cs)).
Proof.
  intros Hheld. unfold Cron.updateMainSchedule.
  destruct (negb (validate newSchedule)); [assumption|].
  destruct (Cron.jobs cs !! "main-posting") as [jobInfo|] eqn:Hmain; [|assumption].
  unfold Cron.releaseTask.
  destruct (Cron.task jobInfo) as [t0|] eqn:Ht0; cbn [fst].
  - assert (forall t x, alter Cron.stopTask t0 (Cron.tasks cs) !! t = Some x ->
              Cron.running x = true ->
              Cron.tasks cs !! t = Some x /\ Cron.target x <> "main-posting") as Hrest.
    { intros t x Hx Hrun. destruct (decide (t0 = t)) as [->|Hne].
      - rewrite list_lookup_alter_eq in Hx.
        destruct (_ !! t); [|discriminate]. injection Hx as <-. discriminate.
      - rewrite list_lookup_alter_ne in Hx by assumption. split; [assumption|].
        intros E. destruct (Hheld t x Hx Hrun) as (info & Hjob & Htask).
        rewrite E, Hmain in Hjob. injection Hjob as <-. congruence. }
    apply scheduleMainJob_held.
    + intros t x Hx Hrun. cbn [Cron.tasks Cron.jobs] in *.
      destruct (Hrest t x Hx Hrun) as [Hx' Hne].
      destruct (Hheld t x Hx' Hrun) as (info & Hjob & Htask).
      exists info. split; [|assumption]. now rewrite lookup_insert_ne.
    + intros t x Hx Hrun. cbn [Cron.tasks] in Hx. now apply (Hrest t x).
  - assert (Cron.noTimer "main-posting" cs) as Hno.
    { intros t x Hx Hrun E. destruct (Hheld t x Hx Hrun) as (info & Hjob & Htask).
      rewrite E, Hmain in Hjob. injection Hjob as <-. congruence. }
    apply scheduleMainJob_held; [|exact Hno].
    intros t x Hx Hrun. cbn [Cron.tasks Cron.jobs] in *.
    destruct (Hheld t x Hx Hrun) as (info & Hjob & Htask).
    exists info. split; [|assumption].
    rewrite lookup_insert_ne; [assumption|]. intros E. now apply (Hno t x).
Qed.

Lemma update_isRunning validate runNow newSchedule cs :
  Cron.isRunning (fst (Cron.updateMainSchedule validate runNow newSchedule cs))
  = Cron.isRunning cs.
Proof.
  unfold Cron.updateMainSchedule.
  destruct (negb (validate newSchedule)); [reflexivity|].
  destruct (Cron.jobs cs !! "main-posting") as [jobInfo|]; [|reflexivity].
  destruct (Cron.releaseTask jobInfo (Cron.tasks cs)) as [released ts]. cbn [fst].
  unfold Cron.scheduleMainJob. cbn [Cron.jobs].
  destruct (_ !! "main-posting"); [|reflexivity].
  destruct (negb _); destruct runNow; reflexivity.
Qed.

Lemma touch_tidy n t now cs : Cron.tidy cs -> Cron.tidy (Cron.touch n t now cs).
Proof.
  intros [Hheld Hidle]. unfold Cron.touch.
  destruct (Cron.jobs cs !! n) as [info|] eqn:Hn; [|now split].
  case_bool_decide as Ht; [|now split].
  split; [|exact Hidle]. intros t' x Hx Hrun. cbn [Cron.tasks Cron.jobs] in *.
  destruct (Hheld t' x Hx Hrun) as (info' & Hjob & Htask).
  destruct (decide (n = Cron.target x)) as [->|Hne].
  - rewrite lookup_insert_eq. eexists. split; [reflexivity|]. cbn. congruence.
  - exists info'. now rewrite lookup_insert_ne.
Qed.

Lemma step_tidy validate runNow cronSchedule e s s' :
  Cron.tidy (fst s) ->
  match e with
  | Cron.CUpdate _ => Cron.isRunning (fst s) = true
  | _ => True
  end ->
  Cron.step validate runNow cronSchedule e s = Some s' -> Cron.tidy (fst s').
Proof.
  destruct s as [cs qs]. cbn [fst]. intros Htidy Hreg Hstep.
  destruct e as [| |newSchedule|newId now|t newId now|newId now]; cbn [Cron.step] in Hstep.
  - injection Hstep as <-. now apply start_tidy.
  - injection Hstep as <-. now apply stop_tidy.
  - injection Hstep as <-. cbn [fst]. destruct Htidy as [Hheld _]. split.
    + now apply update_held.
    + rewrite update_isRunning, Hreg. discriminate.
  - injection Hstep as <-. unfold Cron.triggerMainJob.
    destruct (addJob newId now "main-posting-manual" Cron.manualJobData qs).
    exact Htidy.
  - unfold Cron.fire in Hstep. destruct (Cron.tasks cs !! t) as [x|]; [|discriminate].
    destruct (Cron.running x); [|discriminate]. injection Hstep as <-.
    unfold Cron.callback.
    repeat (match goal with |- context [if ?b then _ else _] => destruct b end);
      cbn [fst]; try assumption; now apply touch_tidy.
  - unfold Cron.runNowCallback in Hstep.
    destruct (Cron.runNowTimeouts cs); [discriminate|]. injection Hstep as <-.
    exact Htidy.
Qed.

Lemma run_tidy validate runNow cronSchedule es : forall s s',
  Cron.tidy (fst s) ->
  Cron.updatesWhileRunning validate runNow cronSchedule es s = true ->
  Cron.run validate runNow cronSchedule es s = Some s' -> Cron.tidy (fst s').
Proof.
  induction es as [|e es IH]; intros s s' Htidy Hreg Hrun.
  - injection Hrun as <-. exact Htidy.
  - cbn [Cron.run Cron.updatesWhileRunning] in Hrun, Hreg.
    apply andb_true_iff in Hreg as [Hnow Hrest].
    destruct (Cron.step validate runNow cronSchedule e s) as [s1|] eqn:Hstep;
      [|discriminate].
    apply (IH s1 s'); [|assumption|assumption].
    apply (step_tidy validate runNow cronSchedule e s); [assumption| |assumption].
    destruct e; trivial.
Qed.

(** X14. Take any run of the scheduler from its initial state (starts,
    stops, updates, manual triggers, timer firings) in which the
    schedule is updated only while the scheduler is running.  Then every
    started task is the one its schedule holds, no schedule has two
    started tasks, and while the scheduler is stopped no task is
    started. *)
Theorem timers_follow_the_scheduler (validate : string -> bool) (runNow : bool)
    (cronSchedule : string) (es : list Cron.Event) (qs0 qs : State)
    (cs : Cron.State) :
  Cron.updatesWhileRunning validate runNow cronSchedule es (Cron.initial, qs0) = true ->
  Cron.run validate runNow cronSchedule es (Cron.initial, qs0) = Some (cs, qs) ->
  (forall t x, Cron.tasks cs !! t = Some x -> Cron.running x = true ->
     exists info, Cron.jobs cs !! Cron.target x = Some info /\ Cron.task info = Some t) /\
  (forall t1 t2 x1 x2,
     Cron.tasks cs !! t1 = Some x1 -> Cron.tasks cs !! t2 = Some x2 ->
     Cron.running x1 = true -> Cron.running x2 = true ->
     Cron.target x1 = Cron.target x2 -> t1 = t2) /\
  (Cron.isRunning cs = false ->
   forall t x, Cron.tasks cs !! t = Some x -> Cron.running x = false).
Proof.
  intros Hreg Hrun.
  assert (Cron.tidy cs) as [Hheld Hidle].
  { apply (run_tidy validate runNow cronSchedule es (Cron.initial, qs0) (cs, qs));
      [|assumption|assumption].
    split; [|intros _; constructor]. intros t x Hx. discriminate. }
  split; [exact Hheld|]. split.
  - intros t1 t2 x1 x2 H1 H2 R1 R2 E.
    destruct (Hheld t1 x1 H1 R1) as (i1 & J1 & T1).
    destruct (Hheld t2 x2 H2 R2) as (i2 & J2 & T2).
    rewrite E, J2 in J1. injection J1 as <-. congruence.
  - intros Hoff t x Hx. specialize (Hidle Hoff). unfold Cron.allStopped in Hidle.
    rewrite Forall_forall in Hidle. now apply Hidle, list_elem_of_lookup_2 with t.
Qed.

Lemma timers_follow_the_scheduler_witness :
  Cron.isRunning (fst Scenario.dayEnd) = false /\
  Forall (fun x => Cron.running x = false) (Cron.tasks (fst Scenario.dayEnd)).
Proof.
  split; [reflexivity|]. apply Forall_forall. intros x Hx.
  apply list_elem_of_lookup_1 in Hx as [t Hx].
  apply (proj2 (proj2 (timers_follow_the_scheduler
           Scenario.fiveFields false "0 9 * * *" Scenario.day initial
           (snd Scenario.dayEnd) (fst Scenario.dayEnd)
           ltac:(vm_compute; reflexivity) ltac:(vm_compute; reflexivity)))
         eq_refl t x Hx).
Defined.

Lemma armTask_armed n info cs :
  Cron.jobs cs !! n = Some info -> Cron.name info = n -> Cron.lastRun info = None ->
  Cron.armed n (Cron.schedule info) (Cron.armTask n info cs).
Proof.
  intros _ Hname Hlast. exists (length (Cron.tasks cs)). unfold Cron.armTask.
  cbn [Cron.jobs Cron.tasks]. rewrite lookup_insert_eq, Hname, Hlast.
  split; [reflexivity|]. now apply list_lookup_middle.
Qed.

Lemma armTask_keeps_armed n n' e info cs :
  n <> n' -> Cron.armed n' e cs -> Cron.armed n' e (Cron.armTask n info cs).
Proof.
  intros Hne (t & Hjob & Htask). exists t. unfold Cron.armTask.
  cbn [Cron.jobs Cron.tasks]. rewrite lookup_insert_ne by assumption.
  split; [assumption|]. now apply lookup_app_l_Some.
Qed.

Lemma scheduleFixedJob_arms n e cs :
  Cron.unarmed n e cs -> Cron.armed n e (Cron.scheduleFixedJob n cs).
Proof.
  intros Hn. unfold Cron.scheduleFixedJob. rewrite Hn.
  now apply (armTask_armed n (Cron.mkJobInfo n e None None)).
Qed.

Lemma scheduleFixedJob_keeps_armed n n' e cs :
  n <> n' -> Cron.armed n' e cs -> Cron.armed n' e (Cron.scheduleFixedJob n cs).
Proof.
  intros Hne Ha. unfold Cron.scheduleFixedJob.
  destruct (Cron.jobs cs !! n); [now apply armTask_keeps_armed|assumption].
Qed.

Lemma scheduleFixedJob_keeps_unarmed n n' e cs :
  n <> n' -> Cron.unarmed n' e cs -> Cron.unarmed n' e (Cron.scheduleFixedJob n cs).
Proof.
  intros Hne Hu. unfold Cron.scheduleFixedJob, Cron.unarmed in *.
  destruct (Cron.jobs cs !! n); [|assumption].
  unfold Cron.armTask. cbn [Cron.jobs]. now rewrite lookup_insert_ne.
Qed.

Lemma scheduleMainJob_keeps_unarmed validate runNow n' e cs :
  "main-posting" <> n' -> Cron.unarmed n' e cs ->
  Cron.unarmed n' e (Cron.scheduleMainJob validate runNow cs).
Proof.
  intros Hne Hu. unfold Cron.scheduleMainJob, Cron.unarmed in *.
  destruct (Cron.jobs cs !! "main-posting"); [|assumption].
  destruct (negb _); destruct runNow; try assumption;
    unfold Cron.armTask; cbn [Cron.jobs]; now rewrite lookup_insert_ne.
Qed.

Lemma scheduleMainJob_main (validate : string -> bool) runNow e cs :
  Cron.unarmed "main-posting" e cs ->
  if validate e
  then Cron.armed "main-posting" e (Cron.scheduleMainJob validate runNow cs)
  else Cron.unarmed "main-posting" e (Cron.scheduleMainJob validate runNow cs).
Proof.
  intros Hu. unfold Cron.scheduleMainJob. rewrite Hu. cbn [Cron.schedule].
  destruct (validate e); cbn [negb].
  - destruct runNow;
      now apply (armTask_armed "main-posting" (Cron.mkJobInfo "main-posting" e None None)).
  - destruct runNow; exact Hu.
Qed.

(** X15. [start] on a stopped scheduler sets it running and gives the
    backup, health-check and cleanup schedules their fixed expressions
    and a started task each, with no last run recorded.  The main
    schedule gets the configured expression, and a started task exactly
    when [cron.validate] accepts that expression: a rejected expression
    leaves the main schedule without a task and the other three armed.
    [start] on a running scheduler changes nothing. *)
Theorem start_arms_the_schedules (validate : string -> bool) (runNow : bool)
    (cronSchedule : string) (cs : Cron.State) :
  let cs' := fst (Cron.start validate runNow cronSchedule cs) in
  if Cron.isRunning cs then cs' = cs
  else
    Cron.isRunning cs' = true /\
    Cron.armed "backup" "0 2 * * *" cs' /\
    Cron.armed "health-check" "0 */6 * * *" cs' /\
    Cron.armed "cleanup" "0 3 * * 0" cs' /\
    (if validate cronSchedule
     then Cron.armed "main-posting" cronSchedule cs'
     else Cron.unarmed "main-posting" cronSchedule cs') /\
    Cron.runNowTimeouts cs' =
      (if runNow then S (Cron.runNowTimeouts cs) else Cron.runNowTimeouts cs).
Proof.
  cbn zeta. unfold Cron.start. destruct (Cron.isRunning cs); [reflexivity|].
  cbn [fst Cron.isRunning]. split; [reflexivity|].
  set (cs0 := Cron.initializeJobs cronSchedule cs).
  assert (Cron.unarmed "main-posting" cronSchedule cs0) as Um.
  { unfold Cron.unarmed, cs0, Cron.initializeJobs. cbn [Cron.jobs].
    now rewrite !lookup_insert_ne, lookup_insert_eq by discriminate. }
  assert (Cron.unarmed "backup" "0 2 * * *" cs0) as Ub.
  { unfold Cron.unarmed, cs0, Cron.initializeJobs. cbn [Cron.jobs].
    now rewrite !lookup_insert_ne, lookup_insert_eq by discriminate. }
  assert (Cron.unarmed "health-check" "0 */6 * * *" cs0) as Uh.
  { unfold Cron.unarmed, cs0, Cron.initializeJobs. cbn [Cron.jobs].
    now rewrite !lookup_insert_ne, lookup_insert_eq by discriminate. }
  assert (Cron.unarmed "cleanup" "0 3 * * 0" cs0) as Uc.
  { unfold Cron.unarmed, cs0, Cron.initializeJobs. cbn [Cron.jobs].
    now rewrite lookup_insert_eq. }
  set (cs1 := Cron.scheduleMainJob validate runNow cs0).
  pose proof (scheduleMainJob_main validate runNow cronSchedule cs0 Um) as Hm.
  fold cs1 in Hm.
  assert (Cron.unarmed "backup" "0 2 * * *" cs1) as Ub1
    by (apply scheduleMainJob_keeps_unarmed; [discriminate|assumption]).
  assert (Cron.unarmed "health-check" "0 */6 * * *" cs1) as Uh1
    by (apply scheduleMainJob_keeps_unarmed; [discriminate|assumption]).
  assert (Cron.unarmed "cleanup" "0 3 * * 0" cs1) as Uc1
    by (apply scheduleMainJob_keeps_unarmed; [discriminate|assumption]).
  assert (forall n e st, Cron.armed n e st ->
            Cron.armed n e (Cron.mkState (Cron.jobs st) true (Cron.tasks st)
                                         (Cron.runNowTimeouts st))) as Hflag
    by (intros n e st Ha; exact Ha).
  unfold Cron.startAllJobs. fold cs0. fold cs1.
  split; [|split; [|split; [|split]]].
  - apply Hflag. do 2 (apply scheduleFixedJob_keeps_armed; [discriminate|]).
    now apply scheduleFixedJob_arms.
  - apply Hflag. apply scheduleFixedJob_keeps_armed; [discriminate|].
    apply scheduleFixedJob_arms.
    apply scheduleFixedJob_keeps_unarmed; [discriminate|assumption].
  - apply Hflag. apply scheduleFixedJob_arms.
    do 2 (apply scheduleFixedJob_keeps_unarmed; [discriminate|]). assumption.
  - destruct (validate cronSchedule).
    + apply Hflag. do 3 (apply scheduleFixedJob_keeps_armed; [discriminate|]).
      assumption.
    + unfold Cron.unarmed. cbn [Cron.jobs].
      do 3 (apply scheduleFixedJob_keeps_unarmed; [discriminate|]). assumption.
  - cbn [Cron.runNowTimeouts].
    assert (forall n st, Cron.runNowTimeouts (Cron.scheduleFixedJob n st)
                         = Cron.runNowTimeouts st) as Hfix.
    { intros n st. unfold Cron.scheduleFixedJob. now destruct (Cron.jobs st !! n). }
    rewrite !Hfix. unfold cs1, Cron.scheduleMainJob. rewrite Um.
    destruct (negb _); destruct runNow; reflexivity.
Qed.

(** X16. When [cron.validate] accepts the new expression and the main
    schedule exists, [updateMainSchedule] succeeds: the task the
    schedule held is stopped, the schedule takes the new expression and
    holds a new started task of that expression, its last run is kept,
    and the other schedules and tasks are as they were.  This is so
    whether or not the scheduler is running, and the running flag is
    not changed. *)
Theorem updateMainSchedule_rearms (validate : string -> bool) (runNow : bool)
    (newSchedule : string) (cs : Cron.State) (info : Cron.JobInfo) :
  validate newSchedule = true ->
  Cron.jobs cs !! "main-posting" = Some info ->
  let cs' := fst (Cron.updateMainSchedule validate runNow newSchedule cs) in
  let fresh := length (Cron.tasks cs) in
  snd (Cron.updateMainSchedule validate runNow newSchedule cs)
    = createApiResponse true "Schedule updated successfully" (Some true) None /\
  Cron.jobs cs' !! "main-posting"
    = Some (Cron.mkJobInfo (Cron.name info) newSchedule (Some fresh) (Cron.lastRun info)) /\
  Cron.tasks cs' !! fresh = Some (Cron.mkTask newSchedule "main-posting" true) /\
  length (Cron.tasks cs') = S fresh /\
  (forall t, (t < fresh)%nat ->
     Cron.tasks cs' !! t =
       if bool_decide (Cron.task info = Some t)
       then Cron.stopTask <$> Cron.tasks cs !! t
       else Cron.tasks cs !! t) /\
  (forall n, n <> "main-posting" -> Cron.jobs cs' !! n = Cron.jobs cs !! n) /\
  Cron.isRunning cs' = Cron.isRunning cs.
Proof.
  intros Hok Hmain. cbn zeta. unfold Cron.updateMainSchedule.
  rewrite Hok, Hmain. cbn [negb].
  set (rel := Cron.releaseTask info (Cron.tasks cs)).
  assert (length (snd rel) = length (Cron.tasks cs) /\
          Cron.name (fst rel) = Cron.name info /\
          Cron.lastRun (fst rel) = Cron.lastRun info /\
          forall t, snd rel !! t =
            if bool_decide (Cron.task info = Some t)
            then Cron.stopTask <$> Cron.tasks cs !! t
            else Cron.tasks cs !! t) as (Hlen & Hname & Hlast & Hts).
  { unfold rel, Cron.releaseTask. destruct (Cron.task info) as [t0|]; cbn [fst snd].
    - split; [apply length_alter|]. split; [reflexivity|]. split; [reflexivity|].
      intros t. case_bool_decide as E.
      + injection E as ->. apply list_lookup_alter_eq.
      + apply list_lookup_alter_ne. congruence.
    - repeat split. }
  destruct rel as [released ts]. cbn [fst snd] in *.
  unfold Cron.scheduleMainJob. cbn [Cron.jobs]. rewrite lookup_insert_eq.
  cbn [Cron.schedule]. rewrite Hok. cbn [negb].
  assert (forall st, Cron.tasks st = ts ->
            length (Cron.tasks (Cron.armTask "main-posting"
               (Cron.mkJobInfo (Cron.name released) newSchedule (Cron.task released)
                  (Cron.lastRun released)) st)) = S (length (Cron.tasks cs)) /\
            Cron.tasks (Cron.armTask "main-posting"
               (Cron.mkJobInfo (Cron.name released) newSchedule (Cron.task released)
                  (Cron.lastRun released)) st)
            = ts ++ [Cron.mkTask newSchedule "main-posting" true]) as Harm.
  { intros st Hst. unfold Cron.armTask. cbn [Cron.tasks Cron.schedule].
    rewrite Hst, length_app, Hlen. cbn [length]. split; [lia|reflexivity]. }
  destruct runNow; cbn [fst snd];
    (split; [reflexivity|]);
    (split; [unfold Cron.armTask; cbn [Cron.jobs Cron.tasks Cron.name Cron.lastRun
                                          Cron.schedule];
             rewrite lookup_insert_eq, Hname, Hlast, Hlen; reflexivity|]);
    (split; [unfold Cron.armTask; cbn [Cron.tasks Cron.schedule];
             apply list_lookup_middle; now rewrite Hlen|]);
    (split; [unfold Cron.armTask; cbn [Cron.tasks];
             rewrite length_app, Hlen; cbn [length]; lia|]);
    (split; [intros t Ht; unfold Cron.armTask; cbn [Cron.tasks];
             rewrite lookup_app_l by (rewrite Hlen; exact Ht); apply Hts|]);
    (split; [intros n Hn; unfold Cron.armTask; cbn [Cron.jobs];
             rewrite !lookup_insert_ne by congruence; reflexivity|reflexivity]).
Qed.

Lemma updateMainSchedule_rearms_witness :
  exists t, Cron.jobs (fst (Cron.updateMainSchedule Scenario.fiveFields false
                              "*/5 * * * *" Scenario.scheduler)) !! "main-posting"
            = Some (Cron.mkJobInfo "main-posting" "*/5 * * * *" (Some t) None).
Proof.
  eexists.
  exact (proj1 (proj2 (updateMainSchedule_rearms Scenario.fiveFields false
           "*/5 * * * *" Scenario.scheduler
           (Cron.mkJobInfo "main-posting" "0 9 * * *" (Some 0%nat) None)
           eq_refl ltac:(vm_compute; reflexivity)))).
Defined.

(** X17. When the timer of a started main, health-check or cleanup task
    fires on a running executor with an empty queue, the job it enqueues
    has its schedule's name as type, and the next executor cycle
    dispatches it to a registered handler: if the handler succeeds the
    job is completed after one attempt. *)
Theorem scheduled_job_is_executed (t : nat) (newId : string) (now now' : Z)
    (cs : Cron.State) (qs : State) (x : Cron.ScheduledTask) (r : ApiResponse unit) :
  Cron.tasks cs !! t = Some x -> Cron.running x = true ->
  Cron.target x = "main-posting" \/ Cron.target x = "health-check" \/
  Cron.target x = "cleanup" ->
  queue qs = [] -> isProcessing qs = true -> successful r = true ->
  exists cs' qs' j,
    Cron.fire t newId now cs qs = Some (cs', qs') /\
    queue qs' = [newJob newId now (Cron.target x)
                   (Cron.scheduledJobData (Cron.target x)
                      (if String.eqb (Cron.target x) "main-posting" then high else low))] /\
    registered (Cron.target x) = true /\
    queue (processQueue now' (Returned r) qs') = [j] /\
    id j = newId /\ type j = Cron.target x /\
    status j = completed /\ attempts j = 1 /\ error j = None.
Proof.
  intros Hx Hrun Htarget Hq Hproc Hr. unfold Cron.fire. rewrite Hx, Hrun.
  unfold Cron.callback.
  assert (forall ty jd, queue (fst (addJob newId now ty jd qs)) = [newJob newId now ty jd] /\
                        isProcessing (fst (addJob newId now ty jd qs)) = true) as Hadd.
  { intros ty jd. unfold addJob. cbn [fst queue isProcessing]. rewrite Hq. now split. }
  destruct Htarget as [-> | [-> | ->]]; cbn [String.eqb Ascii.eqb Bool.eqb];
    eexists _, _, _; (split; [reflexivity|]); cbn [snd];
    match goal with |- queue (fst (addJob _ _ ?ty ?jd _)) = _ /\ _ =>
      destruct (Hadd ty jd) as [Hq1 Hp1] end;
    (split; [exact Hq1|]); (split; [reflexivity|]);
    rewrite (cycle_on_single_job now' (Returned r) _ _ Hq1 Hp1 eq_refl);
    (split; [reflexivity|]);
    unfold executeJob, executeCleanupJob, executeHealthCheckJob, executeMainPostingJob,
      settle;
    cbn [type startJob set_attempts set_status String.eqb Ascii.eqb Bool.eqb fst
         successful createApiResponse newJob];
    rewrite ?Hr; repeat split.
Qed.

Lemma scheduled_job_is_executed_witness :
  exists qs' j,
    option_map snd (Cron.fire 0 "job-1" 5 Scenario.scheduler Scenario.idle) = Some qs' /\
    queue (processQueue 6 (Returned Scenario.done) qs') = [j] /\
    status j = completed.
Proof.
  destruct (scheduled_job_is_executed 0 "job-1" 5 6 Scenario.scheduler Scenario.idle
              (Cron.mkTask "0 9 * * *" "main-posting" true) Scenario.done
              ltac:(vm_compute; reflexivity) eq_refl (or_introl eq_refl)
              eq_refl eq_refl eq_refl)
    as (cs' & qs' & j & Hfire & _ & _ & Hcycle & _ & _ & Hdone & _).
  exists qs', j. rewrite Hfire. repeat split; assumption.
Defined.
